(** * cppgc marking state

    A shallow embedding of [src/heap/cppgc/marking-state.h]: the per-task
    [MarkingState] of the C++ garbage collector, its three worklist views
    and its marked-byte counter, together with the header, page and
    type-info contracts it is written against.

    Heap object headers live in one store that every marking task shares;
    a [HeapObjectHeader&] is the address of a header in that store, so two
    tasks that mark the same object race on the same mark bit. *)

From Stdlib Require Import Sorted.
From stdpp Require Import gmap list.

Local Open Scope Z_scope.

(** ** Plain data *)

(** [Address], [const void*] and function pointers are machine addresses. *)
Abbreviation Address := Z (only parsing).
Abbreviation TraceCallback := Z (only parsing).
Abbreviation WeakCallback := Z (only parsing).
Abbreviation HeapBase := Z (only parsing).
Abbreviation GCInfoIndex := N (only parsing).
Abbreviation size_t := N (only parsing).

Definition nullptr : Z := 0.

(** [struct TraceDescriptor { const void* base_object_payload;
    TraceCallback callback; }], the trace unit. *)
Record TraceDescriptor := mkTraceDescriptor {
  base_object_payload : Address;
  callback : TraceCallback
}.

(** The element type of [Marker::WeakCallbackWorklist]: [{callback, object}]. *)
Record WeakCallbackItem := mkWeakCallbackItem {
  weak_item_callback : WeakCallback;
  weak_item_parameter : Address
}.

(** Modelled from the spec: [heap-object-header.h] is not part of the
    sources.  Per object: mark bit, in-construction bit, free bit, the
    compact byte size field and the type index. *)
Record HeapObjectHeader := mkHeapObjectHeader {
  mark_bit : bool;
  in_construction_bit : bool;
  free_bit : bool;
  size_field : size_t;
  gc_info_index : GCInfoIndex
}.

Definition set_mark_bit (h : HeapObjectHeader) : HeapObjectHeader :=
  mkHeapObjectHeader true (in_construction_bit h) (free_bit h)
                     (size_field h) (gc_info_index h).

(** Modelled from the spec: [heap-page.h] is not part of the sources.  A
    region is a contiguous extent owned by one heap; it holds many object
    headers (normal page) or a single object whose size is the region's
    payload size (large page). *)
Inductive PageType :=
  | kNormalPage
  | kLargePage (payload_size : size_t).

Record BasePage := mkBasePage {
  page_heap : HeapBase;
  page_begin : Address;
  page_end : Address;
  page_type : PageType;
  object_starts : list Address
}.

Definition is_large (page : BasePage) : bool :=
  match page_type page with kLargePage _ => true | kNormalPage => false end.

(** The memory every marking task sees: the headers by address, and the
    region registry. *)
Record Heap := mkHeap {
  headers : gmap Z HeapObjectHeader;
  pages : list BasePage
}.

(** Modelled from the spec: [liveness-broker.h] is not part of the sources.
    A broker is a stateless capability; [broker_id] is the identity of the
    temporary that [LivenessBrokerFactory::Create()] returns. *)
Record LivenessBroker := mkLivenessBroker { broker_id : nat }.

(** One call of a weak callback: the callee is external code, the model
    records that it was called and with what. *)
Record WeakCallbackCall := mkWeakCallbackCall {
  called : WeakCallback;
  broker : LivenessBroker;
  parameter_passed : Address
}.

(** The data members of [class MarkingState]. [heap_] exists in DEBUG
    builds only and is read there only. *)
Record MarkingState := mkMarkingState {
  heap_ : HeapBase;
  marking_worklist_ : list TraceDescriptor;
  not_fully_constructed_worklist_ : list Address;
  weak_callback_worklist_ : list WeakCallbackItem;
  marked_bytes_ : size_t
}.

(** What a member function of one marking task can read and write. *)
Record World := mkWorld {
  memory : Heap;
  self : MarkingState;
  weak_calls : list WeakCallbackCall;
  brokers_created : nat
}.

(** What the build and the rest of the collector fix: the sentinel
    [GarbageCollectedMixin::kNotFullyConstructedObject],
    [sizeof(HeapObjectHeader)], the width of [size_t], and the
    [GlobalGCInfoTable] (index to trace callback). *)
Record Externals := mkExternals {
  kNotFullyConstructedObject : Address;
  sizeof_HeapObjectHeader : Z;
  size_t_bits : N;
  GCInfoFromIndex_trace : GCInfoIndex -> TraceCallback
}.

(** ** Outcomes

    A member function either returns, or the process dies: on a failed
    [DCHECK], or on an access through an address that holds no header or
    lies in no page (undefined behaviour in C++).  The world at the point
    of death is kept, to say what had been written by then. *)
Inductive Failure := DcheckFailure | InvalidAccess.

Inductive Result (A : Type) :=
  | Done (a : A) (w : World)
  | Fatal (f : Failure) (w : World).
Arguments Done {A} a w.
Arguments Fatal {A} f w.

Definition M (A : Type) : Type := World -> Result A.

Definition ret {A} (a : A) : M A := fun w => Done a w.

Definition bind {A B} (c : M A) (k : A -> M B) : M B :=
  fun w => match c w with
           | Done a w' => k a w'
           | Fatal f w' => Fatal f w'
           end.

Definition fatal {A} (f : Failure) : M A := fun w => Fatal f w.

Declare Scope marking_scope.
Delimit Scope marking_scope with marking.
Notation "x <- c ;; k" := (bind c (fun x => k))
  (at level 100, c at next level, right associativity) : marking_scope.
Notation "c ;;; k" := (bind c (fun _ => k))
  (at level 100, right associativity) : marking_scope.

(** The final world of a call, whichever way it ended. *)
Definition final {A} (r : Result A) : World :=
  match r with Done _ w => w | Fatal _ w => w end.

Definition returned {A} (r : Result A) : option A :=
  match r with Done a _ => Some a | Fatal _ _ => None end.

(** ** Field updates *)

Definition with_memory (hp : Heap) (w : World) : World :=
  mkWorld hp (self w) (weak_calls w) (brokers_created w).

Definition with_self (ms : MarkingState) (w : World) : World :=
  mkWorld (memory w) ms (weak_calls w) (brokers_created w).

Definition with_headers (hs : gmap Z HeapObjectHeader) (hp : Heap) : Heap :=
  mkHeap hs (pages hp).

Definition with_marking_worklist (l : list TraceDescriptor) (ms : MarkingState)
  : MarkingState :=
  mkMarkingState (heap_ ms) l (not_fully_constructed_worklist_ ms)
                 (weak_callback_worklist_ ms) (marked_bytes_ ms).

Definition with_not_fully_constructed_worklist (l : list Address)
  (ms : MarkingState) : MarkingState :=
  mkMarkingState (heap_ ms) (marking_worklist_ ms) l
                 (weak_callback_worklist_ ms) (marked_bytes_ ms).

Definition with_weak_callback_worklist (l : list WeakCallbackItem)
  (ms : MarkingState) : MarkingState :=
  mkMarkingState (heap_ ms) (marking_worklist_ ms)
                 (not_fully_constructed_worklist_ ms) l (marked_bytes_ ms).

Definition with_marked_bytes (n : size_t) (ms : MarkingState) : MarkingState :=
  mkMarkingState (heap_ ms) (marking_worklist_ ms)
                 (not_fully_constructed_worklist_ ms)
                 (weak_callback_worklist_ ms) n.

(** Modelled from the spec: [worklist.h] is not part of the sources.
    [View::Push] adds the entry to the task's view; no entry is lost. *)
Definition Push {E} (entry : E) (view : list E) : list E := view ++ [entry].

Section MarkingStateImpl.

Variable DEBUG : bool.
Variable ext : Externals.

Local Open Scope marking_scope.

(** ** The contracts the marking state is written against *)

(** Modelled from the spec: the [DCHECK] family of [src/base/logging.h] is
    not part of the sources.  Checked in diagnostic builds only, and fatal
    there; the condition is not evaluated in other builds. *)
Definition DCHECK (cond : M bool) : M unit :=
  if DEBUG
  then (ok <- cond ;; if ok then ret tt else fatal DcheckFailure)
  else ret tt.

Definition DCHECK_NOT_NULL (p : Z) : M unit :=
  DCHECK (ret (negb (p =? nullptr))).

(** Modelled from the spec: [HeapObjectHeader::FromPayload] and
    [HeapObjectHeader::Payload] are not part of the sources.  The header is
    the exact start of the object, [sizeof(HeapObjectHeader)] bytes before
    its payload. *)
Definition FromPayload (payload : Address) : Address :=
  payload - sizeof_HeapObjectHeader ext.

Definition Payload (header : Address) : Address :=
  header + sizeof_HeapObjectHeader ext.

(** Modelled from the spec: the accessors of [HeapObjectHeader] are not
    part of the sources; each reads the attribute of its name.  They go
    through a [HeapObjectHeader&]: an address that holds no header is an
    invalid access. *)
Definition load (header : Address) : M HeapObjectHeader :=
  fun w => match headers (memory w) !! header with
           | Some h => Done h w
           | None => Fatal InvalidAccess w
           end.

Definition store (header : Address) (h : HeapObjectHeader) : M unit :=
  fun w => Done tt (with_memory
                      (with_headers (<[header := h]> (headers (memory w)))
                                    (memory w)) w).

Definition IsInConstruction (header : Address) : M bool :=
  h <- load header ;; ret (in_construction_bit h).

Definition IsMarked (header : Address) : M bool :=
  h <- load header ;; ret (mark_bit h).

Definition IsFree (header : Address) : M bool :=
  h <- load header ;; ret (free_bit h).

Definition GetSize (header : Address) : M size_t :=
  h <- load header ;; ret (size_field h).

Definition GetGCInfoIndex (header : Address) : M GCInfoIndex :=
  h <- load header ;; ret (gc_info_index h).

(** Modelled from the spec: [HeapObjectHeader::TryMarkAtomic] is not part of
    the sources.  Compare-and-set of the mark bit from 0 to 1; returns
    whether this call performed the transition. *)
Definition TryMarkAtomic (header : Address) : M bool :=
  h <- load header ;;
  if mark_bit h then ret false
  else store header (set_mark_bit h) ;;; ret true.

(** Modelled from the spec: [BasePage::FromPayload] is not part of the
    sources.  Given any address, the region that owns it. *)
Definition in_page (a : Address) (page : BasePage) : bool :=
  (page_begin page <=? a) && (a <? page_end page).

Definition BasePage_FromPayload (a : Address) : M BasePage :=
  fun w => match find (in_page a) (pages (memory w)) with
           | Some page => Done page w
           | None => Fatal InvalidAccess w
           end.

(** The bytes an object occupies, counted from its header: the payload size
    of the region for the single object of a large region, the header's
    size field otherwise. *)
Definition object_size (hp : Heap) (page : BasePage) (start : Address)
  : option size_t :=
  match page_type page with
  | kLargePage n => Some n
  | kNormalPage => size_field <$> headers hp !! start
  end.

Definition object_contains (hp : Heap) (page : BasePage) (a start : Address)
  : bool :=
  match object_size hp page start with
  | Some n => (start <=? a) && (a <? start + Z.of_N n)
  | None => false
  end.

(** Modelled from the spec: [BasePage::ObjectHeaderFromInnerAddress] is not
    part of the sources.  Given any interior address, the header of the
    object of this region that contains it. *)
Definition ObjectHeaderFromInnerAddress (page : BasePage) (a : Address)
  : M Address :=
  fun w => match find (object_contains (memory w) page a) (object_starts page) with
           | Some start => Done start w
           | None => Fatal InvalidAccess w
           end.

(** Modelled from the spec: [HeapObjectHeader::IsLargeObject] is not part of
    the sources.  Whether the object lives in a single-object large
    region. *)
Definition IsLargeObject (header : Address) : M bool :=
  page <- BasePage_FromPayload header ;; ret (is_large page).

(** [reinterpret_cast<const LargePage*>(page)->PayloadSize()]. *)
Definition LargePage_PayloadSize (page : BasePage) : M size_t :=
  match page_type page with
  | kLargePage n => ret n
  | kNormalPage => fatal InvalidAccess
  end.

(** Modelled from the spec: [LivenessBrokerFactory::Create] is not part of
    the sources.  Each call makes a new broker. *)
Definition LivenessBrokerFactory_Create : M LivenessBroker :=
  fun w => Done (mkLivenessBroker (brokers_created w))
                (mkWorld (memory w) (self w) (weak_calls w)
                         (S (brokers_created w))).

(** Calling through a [WeakCallback] function pointer. *)
Definition call_weak_callback (f : WeakCallback) (b : LivenessBroker)
  (parameter : Address) : M unit :=
  fun w => Done tt (mkWorld (memory w) (self w)
                            (weak_calls w ++ [mkWeakCallbackCall f b parameter])
                            (brokers_created w)).

(** [size_t] arithmetic: unsigned, modulo [2 ^ size_t_bits]. *)
Definition size_t_add (a b : size_t) : size_t :=
  ((a + b) mod 2 ^ size_t_bits ext)%N.

(** Access to the members of [*this]. *)
Definition this : M MarkingState := fun w => Done (self w) w.

Definition update_this (f : MarkingState -> MarkingState) : M unit :=
  fun w => Done tt (with_self (f (self w)) w).

(** ** [class MarkingState] *)

(** [bool MarkingState::MarkNoPush(HeapObjectHeader& header)] *)
Definition MarkNoPush (header : Address) : M bool :=
  DCHECK (ms <- this ;;
          page <- BasePage_FromPayload header ;;
          ret (heap_ ms =? page_heap page)) ;;;
  DCHECK (free <- IsFree header ;; ret (negb free)) ;;;
  TryMarkAtomic header.

(** [void MarkingState::MarkAndPush(HeapObjectHeader& header,
    TraceDescriptor desc)] *)
Definition MarkAndPush_header (header : Address) (desc : TraceDescriptor)
  : M unit :=
  DCHECK_NOT_NULL (callback desc) ;;;
  in_construction <- IsInConstruction header ;;
  if in_construction
  then update_this (fun ms =>
         with_not_fully_constructed_worklist
           (Push (Payload header) (not_fully_constructed_worklist_ ms)) ms)
  else
    marked <- MarkNoPush header ;;
    if marked
    then update_this (fun ms =>
           with_marking_worklist (Push desc (marking_worklist_ ms)) ms)
    else ret tt.

(** [void MarkingState::MarkAndPush(const void* object,
    TraceDescriptor desc)] *)
Definition MarkAndPush (object : Address) (desc : TraceDescriptor) : M unit :=
  DCHECK_NOT_NULL object ;;;
  if base_object_payload desc =? kNotFullyConstructedObject ext
  then update_this (fun ms =>
         with_not_fully_constructed_worklist
           (Push object (not_fully_constructed_worklist_ ms)) ms)
  else MarkAndPush_header (FromPayload (base_object_payload desc)) desc.

(** [void MarkingState::DynamicallyMarkAddress(ConstAddress address)] *)
Definition DynamicallyMarkAddress (address : Address) : M unit :=
  page <- BasePage_FromPayload address ;;
  header <- ObjectHeaderFromInnerAddress page address ;;
  DCHECK (c <- IsInConstruction header ;; ret (negb c)) ;;;
  marked <- MarkNoPush header ;;
  if marked
  then
    index <- GetGCInfoIndex header ;;
    update_this (fun ms =>
      with_marking_worklist
        (Push (mkTraceDescriptor (Payload header)
                                 (GCInfoFromIndex_trace ext index))
              (marking_worklist_ ms)) ms)
  else ret tt.

(** [void MarkingState::MarkAndPush(HeapObjectHeader& header)] *)
Definition MarkAndPush_own (header : Address) : M unit :=
  index <- GetGCInfoIndex header ;;
  MarkAndPush_header header
    (mkTraceDescriptor (Payload header) (GCInfoFromIndex_trace ext index)).

(** [void MarkingState::RegisterWeakCallback(WeakCallback callback,
    const void* object)] *)
Definition RegisterWeakCallback (f : WeakCallback) (object : Address) : M unit :=
  update_this (fun ms =>
    with_weak_callback_worklist
      (Push (mkWeakCallbackItem f object) (weak_callback_worklist_ ms)) ms).

(** [void MarkingState::RegisterWeakReferenceIfNeeded(const void* object,
    TraceDescriptor desc, WeakCallback weak_callback,
    const void* parameter)] *)
Definition RegisterWeakReferenceIfNeeded (object : Address)
  (desc : TraceDescriptor) (weak_callback : WeakCallback)
  (parameter : Address) : M unit :=
  filtered <-
    (if negb (base_object_payload desc =? kNotFullyConstructedObject ext)
     then IsMarked (FromPayload (base_object_payload desc))
     else ret false) ;;
  if filtered then ret tt
  else RegisterWeakCallback weak_callback parameter.

(** [void MarkingState::InvokeWeakRootsCallbackIfNeeded(const void* object,
    TraceDescriptor desc, WeakCallback weak_callback,
    const void* parameter)] *)
Definition InvokeWeakRootsCallbackIfNeeded (object : Address)
  (desc : TraceDescriptor) (weak_callback : WeakCallback)
  (parameter : Address) : M unit :=
  if base_object_payload desc =? kNotFullyConstructedObject ext
  then ret tt
  else
    b <- LivenessBrokerFactory_Create ;;
    call_weak_callback weak_callback b parameter.

(** [void MarkingState::AccountMarkedBytes(const HeapObjectHeader& header)] *)
Definition AccountMarkedBytes (header : Address) : M unit :=
  large <- IsLargeObject header ;;
  amount <-
    (if large
     then page <- BasePage_FromPayload header ;; LargePage_PayloadSize page
     else GetSize header) ;;
  update_this (fun ms =>
    with_marked_bytes (size_t_add (marked_bytes_ ms) amount) ms).

(** [size_t marked_bytes() const] *)
Definition marked_bytes (w : World) : size_t := marked_bytes_ (self w).

End MarkingStateImpl.

(** [MarkingState::MarkingState(heap, marking_worklist,
    not_fully_constructed_worklist, weak_callback_worklist, task_id)]: the
    views start on the task's own segments, which are empty, and
    [marked_bytes_ = 0]. *)
Definition MarkingState_new (heap : HeapBase) : MarkingState :=
  mkMarkingState heap [] [] [] 0%N.

(** ** Derived notions *)

(** The heap that owns the region an address lies in. *)
Definition owner (hp : Heap) (a : Address) : option HeapBase :=
  page_heap <$> find (in_page a) (pages hp).

(** The world after the mark bit of [header] went from 0 to 1. *)
Definition marked_world (header : Address) (h : HeapObjectHeader) (w : World)
  : World :=
  with_memory (with_headers (<[header := set_mark_bit h]> (headers (memory w)))
                            (memory w)) w.

(** The world after one push on each of the three views. *)
Definition pushed_trace_unit (desc : TraceDescriptor) (w : World) : World :=
  with_self (with_marking_worklist
               (Push desc (marking_worklist_ (self w))) (self w)) w.

Definition pushed_not_fully_constructed (a : Address) (w : World) : World :=
  with_self (with_not_fully_constructed_worklist
               (Push a (not_fully_constructed_worklist_ (self w))) (self w)) w.

Definition pushed_weak_callback (item : WeakCallbackItem) (w : World) : World :=
  with_self (with_weak_callback_worklist
               (Push item (weak_callback_worklist_ (self w))) (self w)) w.

(** What [AccountMarkedBytes] adds for the object at [header]. *)
Definition accounted_size (hp : Heap) (header : Address) : option size_t :=
  match find (in_page header) (pages hp) with
  | Some page => object_size hp page header
  | None => None
  end.

(** Two objects of a region do not overlap. *)
Definition apart (hp : Heap) (page : BasePage) (s1 s2 : Address) : bool :=
  match object_size hp page s1, object_size hp page s2 with
  | Some n1, Some n2 => (s1 + Z.of_N n1 <=? s2) || (s2 + Z.of_N n2 <=? s1)
  | _, _ => true
  end.

Fixpoint disjoint_objects (hp : Heap) (page : BasePage) (starts : list Address)
  : bool :=
  match starts with
  | [] => true
  | s :: rest => forallb (apart hp page s) rest && disjoint_objects hp page rest
  end.

(** The public member functions, as calls a marking task makes on its
    [MarkingState]. *)
Inductive Call :=
  | Call_MarkAndPush (object : Address) (desc : TraceDescriptor)
  | Call_MarkAndPush_header (header : Address) (desc : TraceDescriptor)
  | Call_MarkAndPush_own (header : Address)
  | Call_MarkNoPush (header : Address)
  | Call_DynamicallyMarkAddress (address : Address)
  | Call_RegisterWeakReferenceIfNeeded (object : Address)
      (desc : TraceDescriptor) (weak_callback : WeakCallback)
      (parameter : Address)
  | Call_RegisterWeakCallback (weak_callback : WeakCallback) (object : Address)
  | Call_InvokeWeakRootsCallbackIfNeeded (object : Address)
      (desc : TraceDescriptor) (weak_callback : WeakCallback)
      (parameter : Address)
  | Call_AccountMarkedBytes (header : Address).

Definition perform (DEBUG : bool) (ext : Externals) (c : Call) : M unit :=
  match c with
  | Call_MarkAndPush object desc => MarkAndPush DEBUG ext object desc
  | Call_MarkAndPush_header header desc =>
      MarkAndPush_header DEBUG ext header desc
  | Call_MarkAndPush_own header => MarkAndPush_own DEBUG ext header
  | Call_MarkNoPush header =>
      bind (MarkNoPush DEBUG header) (fun _ => ret tt)
  | Call_DynamicallyMarkAddress address =>
      DynamicallyMarkAddress DEBUG ext address
  | Call_RegisterWeakReferenceIfNeeded object desc f parameter =>
      RegisterWeakReferenceIfNeeded ext object desc f parameter
  | Call_RegisterWeakCallback f object => RegisterWeakCallback f object
  | Call_InvokeWeakRootsCallbackIfNeeded object desc f parameter =>
      InvokeWeakRootsCallbackIfNeeded ext object desc f parameter
  | Call_AccountMarkedBytes header => AccountMarkedBytes ext header
  end.

(** What [marked_bytes()] returns after each call of a sequence, for as long
    as the process lives. *)
Fixpoint observe (DEBUG : bool) (ext : Externals) (calls : list Call)
  (w : World) : list size_t :=
  match calls with
  | [] => []
  | c :: rest =>
      match perform DEBUG ext c w with
      | Done _ w' => marked_bytes w' :: observe DEBUG ext rest w'
      | Fatal _ _ => []
      end
  end.

(** The addition of a call stays within [size_t]. *)
Definition fits (ext : Externals) (c : Call) (w : World) : bool :=
  match c with
  | Call_AccountMarkedBytes header =>
      match accounted_size (memory w) header with
      | Some n => (marked_bytes w + n <? 2 ^ size_t_bits ext)%N
      | None => true
      end
  | _ => true
  end.

Fixpoint no_wrap (DEBUG : bool) (ext : Externals) (calls : list Call)
  (w : World) : bool :=
  match calls with
  | [] => true
  | c :: rest =>
      fits ext c w &&
      match perform DEBUG ext c w with
      | Done _ w' => no_wrap DEBUG ext rest w'
      | Fatal _ _ => true
      end
  end.

(** The referent of a descriptor is a real address whose header is
    already marked. *)
Definition referent_marked (ext : Externals) (hp : Heap)
  (desc : TraceDescriptor) : bool :=
  negb (base_object_payload desc =? kNotFullyConstructedObject ext) &&
  match headers hp !! FromPayload ext (base_object_payload desc) with
  | Some h => mark_bit h
  | None => false
  end.

(** A computation that leaves [marked_bytes()] as it found it, however it
    ends. *)
Definition keeps_marked_bytes {A} (c : M A) : Prop :=
  forall w, marked_bytes (final (c w)) = marked_bytes w.

Definition is_account (c : Call) : bool :=
  match c with Call_AccountMarkedBytes _ => true | _ => false end.

(** Several tasks offer the same header to [MarkAndPush], one complete call
    after the other: the calls share the memory, each task has its own
    [MarkingState].  The result lists how many trace units each task
    pushed. *)
Fixpoint offer_by_each (DEBUG : bool) (ext : Externals) (header : Address)
  (tasks : list (MarkingState * TraceDescriptor)) (w : World) : list nat :=
  match tasks with
  | [] => []
  | (task, desc) :: rest =>
      let w' :=
        final (MarkAndPush_header DEBUG ext header desc (with_self task w)) in
      (length (marking_worklist_ (self w')) - length (marking_worklist_ task))%nat
        :: offer_by_each DEBUG ext header rest w'
  end.

(** A marking task that has just been constructed on a heap. *)
Definition fresh_task (hp : Heap) (heap : HeapBase) : World :=
  mkWorld hp (MarkingState_new heap) [] 0.

(** ** A small heap to run the code on

    One normal region of heap 1 with three objects, and one large region
    with a single object of 2 GiB; [size_t] is 32 bits wide and the
    sentinel is the null address. *)
Module Scenario.

Definition ext : Externals :=
  mkExternals 0 8 32 (fun index => 1000 + Z.of_N index).

(** Unmarked, fully constructed. *)
Definition object_a : HeapObjectHeader := mkHeapObjectHeader false false false 64 3.
(** Unmarked, in construction. *)
Definition object_b : HeapObjectHeader := mkHeapObjectHeader false true false 32 4.
(** A free-list entry. *)
Definition object_f : HeapObjectHeader := mkHeapObjectHeader false false true 128 0.
(** The large object; its compact size field is unset. *)
Definition object_l : HeapObjectHeader := mkHeapObjectHeader false false false 0 5.

Definition normal_page : BasePage :=
  mkBasePage 1 4096 8192 kNormalPage [4096; 4160; 4192].

Definition large_page : BasePage :=
  mkBasePage 1 1048576 2148532224 (kLargePage 2147483648) [1048576].

Definition heap : Heap :=
  mkHeap (<[4096 := object_a]> (<[4160 := object_b]> (<[4192 := object_f]>
            (<[1048576 := object_l]> ∅))))
         [normal_page; large_page].

Definition world : World := fresh_task heap 1.

Definition unit_a : TraceDescriptor := mkTraceDescriptor 4104 1003.
Definition unit_b : TraceDescriptor := mkTraceDescriptor 4168 1004.

(** The descriptor of a mixin whose object is still being constructed. *)
Definition unit_unconstructed : TraceDescriptor := mkTraceDescriptor 0 0.

End Scenario.

(** ** Sequences of calls and what a call may do *)

(** The world a sequence of calls leaves; the sequence ends with the call
    that kills the process, if one does. *)
Fixpoint perform_all (DEBUG : bool) (ext : Externals) (calls : list Call)
  (w : World) : World :=
  match calls with
  | [] => w
  | c :: rest =>
      match perform DEBUG ext c w with
      | Done _ w' => perform_all DEBUG ext rest w'
      | Fatal _ w' => w'
      end
  end.

Definition is_mark_no_push (c : Call) : bool :=
  match c with Call_MarkNoPush _ => true | _ => false end.

(** The world after [weak_callback] was called with a new broker. *)
Definition invoked_weak_callback (f : WeakCallback) (parameter : Address)
  (w : World) : World :=
  mkWorld (memory w) (self w)
          (weak_calls w ++
           [mkWeakCallbackCall f (mkLivenessBroker (brokers_created w)) parameter])
          (S (brokers_created w)).

Definition accounted (n : size_t) (w : World) : World :=
  with_self (with_marked_bytes n (self w)) w.

(** The effects a call that returns can have had; [bare] says whether a
    mark without a push is among them. *)
Inductive Effect (bare : bool) (w : World) : World -> Prop :=
  | effect_none : Effect bare w w
  | effect_mark a h :
      bare = true ->
      headers (memory w) !! a = Some h -> mark_bit h = false ->
      Effect bare w (marked_world a h w)
  | effect_mark_and_push a h desc :
      headers (memory w) !! a = Some h -> mark_bit h = false ->
      Effect bare w (pushed_trace_unit desc (marked_world a h w))
  | effect_defer a : Effect bare w (pushed_not_fully_constructed a w)
  | effect_register item : Effect bare w (pushed_weak_callback item w)
  | effect_invoke f parameter : Effect bare w (invoked_weak_callback f parameter w)
  | effect_account n : Effect bare w (accounted n w).

(** A computation that writes nothing. *)
Definition read_only {A} (c : M A) : Prop :=
  forall w, (exists a, c w = Done a w) \/ (exists f, c w = Fatal f w).

(** What stays of a header when an object is marked: everything but a
    clear mark bit. *)
Definition header_kept (h h' : HeapObjectHeader) : Prop :=
  in_construction_bit h' = in_construction_bit h /\
  free_bit h' = free_bit h /\
  size_field h' = size_field h /\
  gc_info_index h' = gc_info_index h /\
  (mark_bit h = true -> mark_bit h' = true).

Definition only_marks (hp hp' : Heap) : Prop :=
  pages hp' = pages hp /\
  forall a,
    match headers hp !! a, headers hp' !! a with
    | Some h, Some h' => header_kept h h'
    | None, None => True
    | _, _ => False
    end.

(** Each worklist of [w'] is the worklist of [w] followed by new entries,
    at most [n] of them in all. *)
Definition extends (n : nat) (w w' : World) : Prop :=
  exists s1 s2 s3,
    marking_worklist_ (self w') = marking_worklist_ (self w) ++ s1 /\
    not_fully_constructed_worklist_ (self w') =
      not_fully_constructed_worklist_ (self w) ++ s2 /\
    weak_callback_worklist_ (self w') = weak_callback_worklist_ (self w) ++ s3 /\
    (length s1 + length s2 + length s3 <= n)%nat.

(** The sum of a list of sizes, without bound. *)
Definition total (sizes : list size_t) : N := foldr N.add 0%N sizes.

(** ** Pending compilation errors

    The part of [src/parsing/pending-compilation-error-handler.h] that is
    defined in the header: the flags of [PendingCompilationErrorHandler],
    their inline setters and getters, and the constructors of
    [MessageDetails].  The reporting functions are defined elsewhere. *)
Module Parsing.

(** [MessageTemplate] is an enumeration of [message-template.h], which is
    not part of the sources; its values are kept as numbers. *)
Abbreviation MessageTemplate := N (only parsing).

(** [enum MessageDetails::Type] *)
Inductive MessageDetails_Type :=
  | kNone
  | kAstRawString
  | kConstCharString
  | kOffThreadTransferHandle
  | kMainThreadHandle.

(** [class MessageDetails]; the union of [arg_], [char_arg_] and the two
    handles is one word, absent when no member was written. *)
Record MessageDetails := mkMessageDetails {
  start_position_ : Z;
  end_position_ : Z;
  message_ : MessageTemplate;
  arg_ : option Address;
  type_ : MessageDetails_Type
}.

(** [MessageDetails()], given the value of [MessageTemplate::kNone]. *)
Definition MessageDetails_default (MessageTemplate_kNone : MessageTemplate)
  : MessageDetails :=
  mkMessageDetails (-1) (-1) MessageTemplate_kNone None kNone.

(** [MessageDetails(start_position, end_position, message,
    const AstRawString* arg)] *)
Definition MessageDetails_of_raw_string (start_position end_position : Z)
  (message : MessageTemplate) (arg : Address) : MessageDetails :=
  mkMessageDetails start_position end_position message (Some arg)
                   (if arg =? nullptr then kNone else kAstRawString).

(** [MessageDetails(start_position, end_position, message,
    const char* char_arg)] *)
Definition MessageDetails_of_chars (start_position end_position : Z)
  (message : MessageTemplate) (char_arg : Address) : MessageDetails :=
  mkMessageDetails start_position end_position message (Some char_arg)
                   (if char_arg =? nullptr then kNone else kConstCharString).

(** The data members of [class PendingCompilationErrorHandler]. *)
Record PendingCompilationErrorHandler := mkPendingCompilationErrorHandler {
  has_pending_error_ : bool;
  stack_overflow_ : bool;
  unidentifiable_error_ : bool;
  error_details_ : MessageDetails;
  warning_messages_ : list MessageDetails
}.

(** [PendingCompilationErrorHandler()] *)
Definition PendingCompilationErrorHandler_new
  (MessageTemplate_kNone : MessageTemplate) : PendingCompilationErrorHandler :=
  mkPendingCompilationErrorHandler false false false
    (MessageDetails_default MessageTemplate_kNone) [].

Definition stack_overflow (e : PendingCompilationErrorHandler) : bool :=
  stack_overflow_ e.

Definition set_stack_overflow (e : PendingCompilationErrorHandler)
  : PendingCompilationErrorHandler :=
  mkPendingCompilationErrorHandler true true (unidentifiable_error_ e)
    (error_details_ e) (warning_messages_ e).

Definition has_pending_error (e : PendingCompilationErrorHandler) : bool :=
  has_pending_error_ e.

Definition has_pending_warnings (e : PendingCompilationErrorHandler) : bool :=
  negb (match warning_messages_ e with [] => true | _ :: _ => false end).

Definition set_unidentifiable_error (e : PendingCompilationErrorHandler)
  : PendingCompilationErrorHandler :=
  mkPendingCompilationErrorHandler true (stack_overflow_ e) true
    (error_details_ e) (warning_messages_ e).

Definition clear_unidentifiable_error (e : PendingCompilationErrorHandler)
  : PendingCompilationErrorHandler :=
  mkPendingCompilationErrorHandler false (stack_overflow_ e) false
    (error_details_ e) (warning_messages_ e).

Definition has_error_unidentifiable_by_preparser
  (e : PendingCompilationErrorHandler) : bool :=
  unidentifiable_error_ e.

(** The inline setters, as calls on a handler. *)
Inductive Setter :=
  | Call_set_stack_overflow
  | Call_set_unidentifiable_error
  | Call_clear_unidentifiable_error.

Definition call (s : Setter) (e : PendingCompilationErrorHandler)
  : PendingCompilationErrorHandler :=
  match s with
  | Call_set_stack_overflow => set_stack_overflow e
  | Call_set_unidentifiable_error => set_unidentifiable_error e
  | Call_clear_unidentifiable_error => clear_unidentifiable_error e
  end.

Fixpoint call_all (calls : list Setter) (e : PendingCompilationErrorHandler)
  : PendingCompilationErrorHandler :=
  match calls with
  | [] => e
  | s :: rest => call_all rest (call s e)
  end.

Definition is_clear (s : Setter) : bool :=
  match s with Call_clear_unidentifiable_error => true | _ => false end.

End Parsing.

(** What a call did, from its result: a call that dies has written
    nothing, a call that returns has had one of the effects. *)
Definition effect_of {A} (bare : bool) (w : World) (r : Result A) : Prop :=
  match r with
  | Done _ w' => Effect bare w w'
  | Fatal _ w' => w' = w
  end.

(** A computation that never dies on a [DCHECK]. *)
Definition passes_checks {A} (c : M A) : Prop :=
  forall w w', c w <> Fatal DcheckFailure w'.

Ltac unfold_monad :=
  unfold DCHECK_NOT_NULL, DCHECK, IsInConstruction, IsMarked, IsFree, GetSize,
    GetGCInfoIndex, TryMarkAtomic, IsLargeObject, LargePage_PayloadSize,
    BasePage_FromPayload, ObjectHeaderFromInnerAddress, update_this, this,
    load, store, bind, ret, fatal in *.

Section Primitives.

Variable DEBUG : bool.
Variable ext : Externals.

Lemma owner_page hp a heap :
  owner hp a = Some heap ->
  exists page, find (in_page a) (pages hp) = Some page /\ page_heap page = heap.
Proof.
  unfold owner. destruct (find (in_page a) (pages hp)) as [page|]; simpl.
  - intros [= <-]. now exists page.
  - discriminate.
Qed.

Lemma marked_world_lookup header h w :
  headers (memory (marked_world header h w)) !! header = Some (set_mark_bit h).
Proof. simpl. apply lookup_insert_eq. Qed.

Lemma marked_world_idem header h w :
  headers (memory w) !! header = Some h -> mark_bit h = true ->
  marked_world header h w = w.
Proof.
  intros Hh Hm. destruct w as [[hs ps] ms cs n]. simpl in *.
  unfold marked_world, with_memory, with_headers. simpl.
  replace (set_mark_bit h) with h.
  - now rewrite insert_id.
  - destruct h; simpl in *; subst; reflexivity.
Qed.

Lemma marked_world_marked header h w :
  mark_bit <$> headers (memory (marked_world header h w)) !! header = Some true.
Proof. rewrite marked_world_lookup. reflexivity. Qed.

Lemma marked_world_other header h w a :
  a <> header ->
  headers (memory (marked_world header h w)) !! a = headers (memory w) !! a.
Proof. intros Hne. simpl. now rewrite lookup_insert_ne. Qed.

(** What can be read from a world in which [header] was marked and [desc]
    pushed. *)
Lemma marked_and_pushed header h desc w :
  let w' := pushed_trace_unit desc (marked_world header h w) in
  mark_bit <$> headers (memory w') !! header = Some true /\
  (forall a, a <> header ->
     headers (memory w') !! a = headers (memory w) !! a) /\
  marking_worklist_ (self w') = marking_worklist_ (self w) ++ [desc] /\
  not_fully_constructed_worklist_ (self w') =
    not_fully_constructed_worklist_ (self w) /\
  weak_callback_worklist_ (self w') = weak_callback_worklist_ (self w).
Proof.
  intros w'. split; [apply marked_world_marked|].
  split; [intros a Hne; now apply marked_world_other|].
  repeat split.
Qed.

(** [MarkNoPush] on a header that passes the diagnostic checks: the value
    returned says whether this call set the bit. *)
Lemma MarkNoPush_checked w header h :
  headers (memory w) !! header = Some h ->
  (DEBUG = true ->
   free_bit h = false /\ owner (memory w) header = Some (heap_ (self w))) ->
  MarkNoPush DEBUG header w =
    Done (negb (mark_bit h))
         (if mark_bit h then w else marked_world header h w).
Proof.
  intros Hh Hpre. unfold MarkNoPush. unfold_monad.
  destruct DEBUG.
  - destruct Hpre as [Hfree Hown]; [reflexivity|].
    apply owner_page in Hown as (page & -> & ->).
    rewrite Z.eqb_refl, Hh, Hfree. simpl. rewrite Hh.
    destruct (mark_bit h); reflexivity.
  - rewrite Hh. destruct (mark_bit h); reflexivity.
Qed.

End Primitives.

(** ** Marking through a header *)

Section HeaderMarking.

Variable DEBUG : bool.
Variable ext : Externals.

Lemma DCHECK_NOT_NULL_passes p w :
  (DEBUG = true -> p <> nullptr) -> DCHECK_NOT_NULL DEBUG p w = Done tt w.
Proof.
  intros Hp. unfold_monad. destruct DEBUG; [|reflexivity].
  destruct (Z.eqb_spec p nullptr) as [->|_]; [|reflexivity].
  now destruct Hp.
Qed.

(** The header-based overload on a constructed object, in terms of what
    its [MarkNoPush] did. *)
Lemma MarkAndPush_header_constructed w header desc h :
  headers (memory w) !! header = Some h ->
  in_construction_bit h = false ->
  (DEBUG = true ->
   callback desc <> nullptr /\ free_bit h = false /\
   owner (memory w) header = Some (heap_ (self w))) ->
  MarkAndPush_header DEBUG ext header desc w =
    Done tt (if mark_bit h then w
             else pushed_trace_unit desc (marked_world header h w)).
Proof.
  intros Hh Hc Hpre. unfold MarkAndPush_header.
  unfold bind at 1. rewrite DCHECK_NOT_NULL_passes by (intros D; now apply Hpre).
  unfold bind at 1. unfold IsInConstruction, load, bind at 1, ret at 1.
  rewrite Hh, Hc. unfold bind at 1.
  rewrite (MarkNoPush_checked DEBUG w header h Hh) by (intros D; now apply Hpre).
  destruct (mark_bit h); reflexivity.
Qed.

(** Offered by any number of tasks, an object is pushed by the first task
    that reaches it if it was unmarked, and by none after that. *)
Lemma offer_by_each_marked header tasks :
  forall w h,
    headers (memory w) !! header = Some h ->
    in_construction_bit h = false ->
    mark_bit h = true ->
    Forall (fun offer =>
              DEBUG = true ->
              callback (snd offer) <> nullptr /\ free_bit h = false /\
              owner (memory w) header = Some (heap_ (fst offer))) tasks ->
    offer_by_each DEBUG ext header tasks w = repeat 0%nat (length tasks).
Proof.
  induction tasks as [|[task desc] rest IH]; intros w h Hh Hc Hm Hall;
    [reflexivity|].
  inversion Hall as [|offer l Hoffer Hrest]; subst. simpl in *.
  rewrite (MarkAndPush_header_constructed (with_self task w) header desc h)
    by assumption.
  rewrite Hm. simpl. rewrite Nat.sub_diag. f_equal.
  now apply (IH (with_self task w) h).
Qed.

Lemma offer_by_each_once header task desc rest w h :
  headers (memory w) !! header = Some h ->
  in_construction_bit h = false ->
  mark_bit h = false ->
  Forall (fun offer =>
            DEBUG = true ->
            callback (snd offer) <> nullptr /\ free_bit h = false /\
            owner (memory w) header = Some (heap_ (fst offer)))
         ((task, desc) :: rest) ->
  offer_by_each DEBUG ext header ((task, desc) :: rest) w =
    1%nat :: repeat 0%nat (length rest).
Proof.
  intros Hh Hc Hm Hall.
  inversion Hall as [|offer l Hoffer Hrest]; subst. simpl in *.
  rewrite (MarkAndPush_header_constructed (with_self task w) header desc h)
    by assumption.
  rewrite Hm. simpl. unfold Push. rewrite length_app. simpl.
  f_equal; [lia|].
  apply (offer_by_each_marked header rest _ (set_mark_bit h)); simpl; auto.
  apply lookup_insert_eq.
Qed.

End HeaderMarking.

(** C1. For a header that is neither in construction nor free,
    [MarkAndPush(header, desc)] pushes [desc] on the trace-unit worklist if
    and only if its own [MarkNoPush] returned true, that is if this call
    moved the mark bit from 0 to 1.  On an already marked header nothing
    changes, and once the header is marked a further call on it, by this
    task or by another one, pushes nothing: of any number of tasks that
    offer the header one after the other, only the first can push. *)
Theorem MarkAndPush_header_pushes_iff_marked
  (DEBUG : bool) (ext : Externals) (w : World) (header : Address)
  (desc : TraceDescriptor) (h : HeapObjectHeader) :
  headers (memory w) !! header = Some h ->
  in_construction_bit h = false ->
  free_bit h = false ->
  (DEBUG = true ->
   callback desc <> nullptr /\
   owner (memory w) header = Some (heap_ (self w))) ->
  let transition := negb (mark_bit h) in
  let w' := final (MarkAndPush_header DEBUG ext header desc w) in
  returned (MarkNoPush DEBUG header w) = Some transition /\
  MarkAndPush_header DEBUG ext header desc w = Done tt w' /\
  headers (memory w') !! header = Some (set_mark_bit h) /\
  (marking_worklist_ (self w') = Push desc (marking_worklist_ (self w))
   <-> transition = true) /\
  (transition = false -> w' = w) /\
  (transition = true ->
   w' = pushed_trace_unit desc (marked_world header h w)) /\
  (forall (task : MarkingState) (desc' : TraceDescriptor),
     (DEBUG = true ->
      callback desc' <> nullptr /\ heap_ task = heap_ (self w)) ->
     MarkAndPush_header DEBUG ext header desc' (with_self task w') =
       Done tt (with_self task w')) /\
  (forall (first : MarkingState * TraceDescriptor)
          (others : list (MarkingState * TraceDescriptor)),
     Forall (fun offer =>
               DEBUG = true ->
               callback (snd offer) <> nullptr /\
               heap_ (fst offer) = heap_ (self w)) (first :: others) ->
     offer_by_each DEBUG ext header (first :: others) w =
       (if transition then 1%nat else 0%nat)
         :: repeat 0%nat (length others)).
Proof.
  intros Hh Hc Hf Hpre transition w'.
  assert (Hrun : MarkAndPush_header DEBUG ext header desc w =
                 Done tt (if mark_bit h then w
                          else pushed_trace_unit desc (marked_world header h w))).
  { apply MarkAndPush_header_constructed; auto.
    intros D. destruct (Hpre D). auto. }
  assert (Hw' : w' = if mark_bit h then w
                     else pushed_trace_unit desc (marked_world header h w)).
  { subst w'. now rewrite Hrun. }
  clearbody w'.
  assert (Hlook : headers (memory w') !! header = Some (set_mark_bit h)).
  { rewrite Hw'. destruct (mark_bit h) eqn:Hm.
    - rewrite Hh. f_equal. destruct h; simpl in *; now subst.
    - apply marked_world_lookup. }
  split; [|split; [|split; [|split; [|split; [|split; [|split]]]]]].
  - rewrite (MarkNoPush_checked DEBUG w header h Hh); [reflexivity|].
    intros D. destruct (Hpre D). auto.
  - now rewrite Hrun, Hw'.
  - exact Hlook.
  - rewrite Hw'. subst transition. destruct (mark_bit h); simpl.
    + split; [|discriminate]. unfold Push. intros E.
      apply (f_equal length) in E. rewrite length_app in E. simpl in E. lia.
    + split; reflexivity.
  - subst transition. rewrite Hw'. now destruct (mark_bit h).
  - subst transition. rewrite Hw'. now destruct (mark_bit h).
  - intros task desc' Hpre'.
    rewrite (MarkAndPush_header_constructed DEBUG ext (with_self task w')
               header desc' (set_mark_bit h)); simpl; auto.
    intros D. destruct (Hpre' D) as [Hcb Hheap]. destruct (Hpre D) as [_ Hown].
    repeat split; auto. rewrite Hheap, <- Hown.
    rewrite Hw'. now destruct (mark_bit h).
  - intros [task0 desc0] others Hall.
    assert (Hall' : Forall (fun offer =>
                      DEBUG = true ->
                      callback (snd offer) <> nullptr /\ free_bit h = false /\
                      owner (memory w) header = Some (heap_ (fst offer)))
                    ((task0, desc0) :: others)).
    { eapply Forall_impl; [exact Hall|]. intros offer Hoffer D.
      destruct (Hoffer D) as [Hcb Hheap]. destruct (Hpre D) as [_ Hown].
      repeat split; auto. now rewrite Hheap. }
    subst transition. destruct (mark_bit h) eqn:Hm; simpl negb; cbv iota.
    + apply (offer_by_each_marked DEBUG ext header ((task0, desc0) :: others)
               w h); assumption.
    + apply (offer_by_each_once DEBUG ext header task0 desc0 others w h);
        assumption.
Qed.

(** The unmarked object of the scenario: the call marks it and pushes. *)
Lemma MarkAndPush_header_pushes_iff_marked_witness :
  MarkAndPush_header true Scenario.ext 4096 Scenario.unit_a Scenario.world =
    Done tt (pushed_trace_unit Scenario.unit_a
               (marked_world 4096 Scenario.object_a Scenario.world)).
Proof.
  assert (Hh : headers (memory Scenario.world) !! 4096 = Some Scenario.object_a)
    by reflexivity.
  assert (Hpre : true = true ->
                 callback Scenario.unit_a <> nullptr /\
                 owner (memory Scenario.world) 4096 =
                   Some (heap_ (self Scenario.world))).
  { intros _. split; [discriminate | reflexivity]. }
  destruct (MarkAndPush_header_pushes_iff_marked true Scenario.ext
              Scenario.world 4096 Scenario.unit_a Scenario.object_a
              Hh eq_refl eq_refl Hpre)
    as (_ & Hrun & _ & _ & _ & Hw' & _ & _).
  rewrite <- (Hw' eq_refl). exact Hrun.
Defined.

(** C2. For a header whose in-construction bit is set,
    [MarkAndPush(header, desc)] pushes the payload address on the
    not-fully-constructed worklist and nothing on the trace-unit worklist,
    and writes no header: the mark bit is as it was, so an unset bit stays
    unset. *)
Theorem MarkAndPush_header_defers_in_construction
  (DEBUG : bool) (ext : Externals) (w : World) (header : Address)
  (desc : TraceDescriptor) (h : HeapObjectHeader) :
  headers (memory w) !! header = Some h ->
  in_construction_bit h = true ->
  (DEBUG = true -> callback desc <> nullptr) ->
  exists w',
    MarkAndPush_header DEBUG ext header desc w = Done tt w' /\
    not_fully_constructed_worklist_ (self w') =
      not_fully_constructed_worklist_ (self w) ++ [Payload ext header] /\
    marking_worklist_ (self w') = marking_worklist_ (self w) /\
    weak_callback_worklist_ (self w') = weak_callback_worklist_ (self w) /\
    memory w' = memory w /\
    (mark_bit h = false -> IsMarked header w' = Done false w').
Proof.
  intros Hh Hc Hcb.
  exists (pushed_not_fully_constructed (Payload ext header) w).
  repeat split.
  - unfold MarkAndPush_header.
    unfold bind at 1. rewrite DCHECK_NOT_NULL_passes by assumption.
    unfold_monad. now rewrite Hh, Hc.
  - intros Hm. unfold_monad. simpl. now rewrite Hh, Hm.
Qed.

(** The object in construction of the scenario is deferred. *)
Lemma MarkAndPush_header_defers_in_construction_witness :
  exists w',
    MarkAndPush_header true Scenario.ext 4160 Scenario.unit_b Scenario.world
      = Done tt w' /\
    not_fully_constructed_worklist_ (self w') = [4168] /\
    marking_worklist_ (self w') = [] /\
    memory w' = memory Scenario.world.
Proof.
  assert (Hh : headers (memory Scenario.world) !! 4160 = Some Scenario.object_b)
    by reflexivity.
  assert (Hcb : true = true -> callback Scenario.unit_b <> nullptr)
    by (intros _; discriminate).
  destruct (MarkAndPush_header_defers_in_construction true Scenario.ext
              Scenario.world 4160 Scenario.unit_b Scenario.object_b
              Hh eq_refl Hcb)
    as (w' & Hrun & Hnfc & Hmw & _ & Hmem & _).
  exists w'. repeat split; assumption.
Defined.

(** The claim C3 fails in a release build: [MarkNoPush] on the free-list
    entry of the scenario returns true and sets its mark bit. *)
Lemma MarkNoPush_marks_free_header_in_release :
  headers (memory Scenario.world) !! 4192 = Some Scenario.object_f /\
  free_bit Scenario.object_f = true /\
  mark_bit Scenario.object_f = false /\
  exists w',
    MarkNoPush false 4192 Scenario.world = Done true w' /\
    mark_bit <$> headers (memory w') !! 4192 = Some true.
Proof.
  repeat split.
  exists (marked_world 4192 Scenario.object_f Scenario.world).
  split; reflexivity.
Qed.

(** C3, amended. On a header whose free bit is set, a DEBUG build dies on a
    [DCHECK] of [MarkNoPush] before any header is written; a build without
    DEBUG does not look at the free bit and performs [TryMarkAtomic], which
    sets the mark bit if it was clear. *)
Theorem MarkNoPush_free_header
  (w : World) (header : Address) (h : HeapObjectHeader) :
  headers (memory w) !! header = Some h ->
  free_bit h = true ->
  is_Some (owner (memory w) header) ->
  MarkNoPush true header w = Fatal DcheckFailure w /\
  MarkNoPush false header w =
    Done (negb (mark_bit h))
         (if mark_bit h then w else marked_world header h w).
Proof.
  intros Hh Hf [heap Hown]. split.
  - apply owner_page in Hown as (page & Hfind & _).
    unfold MarkNoPush. unfold_monad. rewrite Hfind.
    destruct (heap_ (self w) =? page_heap page); [|reflexivity].
    now rewrite Hh, Hf.
  - apply MarkNoPush_checked; [assumption | discriminate].
Qed.

Lemma MarkNoPush_free_header_witness :
  MarkNoPush true 4192 Scenario.world = Fatal DcheckFailure Scenario.world /\
  MarkNoPush false 4192 Scenario.world =
    Done true (marked_world 4192 Scenario.object_f Scenario.world).
Proof.
  assert (Hh : headers (memory Scenario.world) !! 4192 = Some Scenario.object_f)
    by reflexivity.
  assert (Hown : is_Some (owner (memory Scenario.world) 4192))
    by (exists 1; reflexivity).
  exact (MarkNoPush_free_header Scenario.world 4192 Scenario.object_f
           Hh eq_refl Hown).
Defined.

(** ** Weak references and weak roots *)

(** C4. [RegisterWeakReferenceIfNeeded] registers nothing, and leaves every
    worklist as it was, exactly when the descriptor's payload is not the
    sentinel and the header of that payload is already marked; in every
    other case (header unmarked, or payload equal to the sentinel) it
    appends exactly the record [{weak_callback, parameter}] to the
    weak-callback worklist. *)
Theorem RegisterWeakReferenceIfNeeded_registers_unless_marked
  (ext : Externals) (w : World) (object : Address) (desc : TraceDescriptor)
  (weak_callback : WeakCallback) (parameter : Address) :
  (base_object_payload desc <> kNotFullyConstructedObject ext ->
   is_Some (headers (memory w) !! FromPayload ext (base_object_payload desc))) ->
  exists w',
    RegisterWeakReferenceIfNeeded ext object desc weak_callback parameter w
      = Done tt w' /\
    (w' = w <-> referent_marked ext (memory w) desc = true) /\
    (referent_marked ext (memory w) desc = false ->
     w' = pushed_weak_callback (mkWeakCallbackItem weak_callback parameter) w /\
     weak_callback_worklist_ (self w') =
       weak_callback_worklist_ (self w) ++
       [mkWeakCallbackItem weak_callback parameter] /\
     marking_worklist_ (self w') = marking_worklist_ (self w) /\
     not_fully_constructed_worklist_ (self w') =
       not_fully_constructed_worklist_ (self w) /\
     memory w' = memory w).
Proof.
  intros Hreal.
  assert (Hgrow : pushed_weak_callback
                    (mkWeakCallbackItem weak_callback parameter) w <> w).
  { intros E. apply (f_equal (fun x => length (weak_callback_worklist_ (self x)))) in E.
    simpl in E. unfold Push in E. rewrite length_app in E. simpl in E. lia. }
  unfold RegisterWeakReferenceIfNeeded, RegisterWeakCallback, referent_marked.
  unfold_monad.
  destruct (Z.eqb_spec (base_object_payload desc) (kNotFullyConstructedObject ext))
    as [Heq|Hne]; simpl.
  - eexists. split; [reflexivity|]. split.
    + split; [intros E; now destruct Hgrow | discriminate].
    + intros _. repeat split.
  - destruct (Hreal Hne) as [h Hh]. rewrite Hh.
    destruct (mark_bit h); eexists; (split; [reflexivity|]); split.
    + split; reflexivity.
    + discriminate.
    + split; [intros E; now destruct Hgrow | discriminate].
    + intros _. repeat split.
Qed.

(** A weak reference to the unmarked object of the scenario registers one
    callback. *)
Lemma RegisterWeakReferenceIfNeeded_registers_unless_marked_witness :
  exists w',
    RegisterWeakReferenceIfNeeded Scenario.ext 5000 Scenario.unit_a 55 66
      Scenario.world = Done tt w' /\
    weak_callback_worklist_ (self w') = [mkWeakCallbackItem 55 66].
Proof.
  assert (Hreal : base_object_payload Scenario.unit_a <>
                    kNotFullyConstructedObject Scenario.ext ->
                  is_Some (headers (memory Scenario.world) !!
                             FromPayload Scenario.ext
                               (base_object_payload Scenario.unit_a))).
  { intros _. exists Scenario.object_a. reflexivity. }
  destruct (RegisterWeakReferenceIfNeeded_registers_unless_marked
              Scenario.ext Scenario.world 5000 Scenario.unit_a 55 66 Hreal)
    as (w' & Hrun & _ & Hpush).
  exists w'. split; [exact Hrun|].
  destruct (Hpush eq_refl) as (_ & Hweak & _). exact Hweak.
Defined.

(** C5. [InvokeWeakRootsCallbackIfNeeded] never defers.  When the
    descriptor's payload is the sentinel it does nothing at all; otherwise
    it calls [weak_callback] once, during the call, with the broker that
    this call created, and pushes on no worklist. *)
Theorem InvokeWeakRootsCallbackIfNeeded_never_defers
  (ext : Externals) (w : World) (object : Address) (desc : TraceDescriptor)
  (weak_callback : WeakCallback) (parameter : Address) :
  let r :=
    InvokeWeakRootsCallbackIfNeeded ext object desc weak_callback parameter w in
  let w' := final r in
  r = Done tt w' /\
  self w' = self w /\
  memory w' = memory w /\
  (if base_object_payload desc =? kNotFullyConstructedObject ext
   then w' = w
   else
     weak_calls w' =
       weak_calls w ++
       [mkWeakCallbackCall weak_callback
          (mkLivenessBroker (brokers_created w)) parameter] /\
     brokers_created w' = S (brokers_created w)).
Proof.
  unfold InvokeWeakRootsCallbackIfNeeded, LivenessBrokerFactory_Create,
    call_weak_callback. unfold_monad.
  destruct (base_object_payload desc =? kNotFullyConstructedObject ext);
    simpl; repeat split.
Qed.

(** ** Byte accounting *)

(** The claim C6 fails when the sum leaves [size_t]: the large object of
    the scenario has a payload of 2 GiB; accounted a second time on a
    32-bit [size_t], the counter goes from 2147483648 to 0 and not to
    4294967296. *)
Lemma AccountMarkedBytes_wraps_around :
  let w1 := final (AccountMarkedBytes Scenario.ext 1048576 Scenario.world) in
  let w2 := final (AccountMarkedBytes Scenario.ext 1048576 w1) in
  marked_bytes w1 = 2147483648%N /\
  accounted_size (memory w1) 1048576 = Some 2147483648%N /\
  AccountMarkedBytes Scenario.ext 1048576 w1 = Done tt w2 /\
  marked_bytes w2 = 0%N /\
  marked_bytes w2 <> (marked_bytes w1 + 2147483648)%N.
Proof. repeat split. discriminate. Qed.

Lemma AccountMarkedBytes_run ext w header :
  AccountMarkedBytes ext header w =
    match accounted_size (memory w) header with
    | Some n =>
        Done tt (with_self
                   (with_marked_bytes (size_t_add ext (marked_bytes w) n)
                                      (self w)) w)
    | None => Fatal InvalidAccess w
    end.
Proof.
  unfold AccountMarkedBytes, accounted_size, object_size, marked_bytes.
  unfold_monad.
  destruct (find (in_page header) (pages (memory w))) as [page|] eqn:Hfind;
    [|reflexivity].
  unfold is_large. destruct (page_type page) eqn:Htype; simpl.
  - now destruct (headers (memory w) !! header).
  - now rewrite Hfind, Htype.
Qed.

(** C6, amended. [AccountMarkedBytes] adds, in [size_t] arithmetic, the
    payload size of the owning large region when the object is a large
    object and the header's compact size field otherwise; when the sum fits
    in [size_t] the counter grows by exactly that amount.  Nothing else
    changes and nothing is returned. *)
Theorem AccountMarkedBytes_adds_object_size
  (ext : Externals) (w : World) (header : Address) (h : HeapObjectHeader)
  (page : BasePage) :
  headers (memory w) !! header = Some h ->
  find (in_page header) (pages (memory w)) = Some page ->
  let amount :=
    match page_type page with
    | kLargePage payload_size => payload_size
    | kNormalPage => size_field h
    end in
  exists w',
    AccountMarkedBytes ext header w = Done tt w' /\
    marked_bytes w' = ((marked_bytes w + amount) mod 2 ^ size_t_bits ext)%N /\
    ((marked_bytes w + amount < 2 ^ size_t_bits ext)%N ->
     marked_bytes w' = (marked_bytes w + amount)%N) /\
    memory w' = memory w /\
    marking_worklist_ (self w') = marking_worklist_ (self w) /\
    not_fully_constructed_worklist_ (self w') =
      not_fully_constructed_worklist_ (self w) /\
    weak_callback_worklist_ (self w') = weak_callback_worklist_ (self w) /\
    weak_calls w' = weak_calls w.
Proof.
  intros Hh Hpage amount.
  assert (Hsize : accounted_size (memory w) header = Some amount).
  { unfold accounted_size, object_size. rewrite Hpage. subst amount.
    destruct (page_type page); [|reflexivity]. now rewrite Hh. }
  rewrite AccountMarkedBytes_run, Hsize.
  eexists. split; [reflexivity|]. simpl. unfold size_t_add.
  repeat split. intros Hfit. now apply N.mod_small.
Qed.

(** The two kinds of object of the scenario, each accounted once. *)
Lemma AccountMarkedBytes_adds_object_size_witness :
  (exists w', AccountMarkedBytes Scenario.ext 4096 Scenario.world = Done tt w' /\
              marked_bytes w' = 64%N) /\
  (exists w', AccountMarkedBytes Scenario.ext 1048576 Scenario.world = Done tt w' /\
              marked_bytes w' = 2147483648%N).
Proof.
  split.
  - assert (Hh : headers (memory Scenario.world) !! 4096 = Some Scenario.object_a)
      by reflexivity.
    assert (Hp : find (in_page 4096) (pages (memory Scenario.world)) =
                   Some Scenario.normal_page) by reflexivity.
    destruct (AccountMarkedBytes_adds_object_size Scenario.ext Scenario.world
                4096 Scenario.object_a Scenario.normal_page Hh Hp)
      as (w' & Hrun & _ & Hexact & _).
    exists w'. split; [exact Hrun|]. apply Hexact. reflexivity.
  - assert (Hh : headers (memory Scenario.world) !! 1048576 = Some Scenario.object_l)
      by reflexivity.
    assert (Hp : find (in_page 1048576) (pages (memory Scenario.world)) =
                   Some Scenario.large_page) by reflexivity.
    destruct (AccountMarkedBytes_adds_object_size Scenario.ext Scenario.world
                1048576 Scenario.object_l Scenario.large_page Hh Hp)
      as (w' & Hrun & _ & Hexact & _).
    exists w'. split; [exact Hrun|]. apply Hexact. reflexivity.
Defined.

(** ** Marking through an address and a descriptor *)

(** The claim C7 fails on the descriptor of an object in construction: the
    address 5000 is not the sentinel, the descriptor's payload is.  The
    call pushes 5000 on the not-fully-constructed worklist; it does not act
    as the header-based overload on the header of the descriptor's
    payload, which fails in both builds. *)
Lemma MarkAndPush_tests_descriptor_not_address :
  5000 <> kNotFullyConstructedObject Scenario.ext /\
  MarkAndPush true Scenario.ext 5000 Scenario.unit_unconstructed Scenario.world =
    Done tt (pushed_not_fully_constructed 5000 Scenario.world) /\
  MarkAndPush false Scenario.ext 5000 Scenario.unit_unconstructed Scenario.world =
    Done tt (pushed_not_fully_constructed 5000 Scenario.world) /\
  MarkAndPush_header true Scenario.ext
    (FromPayload Scenario.ext (base_object_payload Scenario.unit_unconstructed))
    Scenario.unit_unconstructed Scenario.world =
    Fatal DcheckFailure Scenario.world /\
  MarkAndPush_header false Scenario.ext
    (FromPayload Scenario.ext (base_object_payload Scenario.unit_unconstructed))
    Scenario.unit_unconstructed Scenario.world =
    Fatal InvalidAccess Scenario.world.
Proof. repeat split. discriminate. Qed.

(** C7, amended. The address-based [MarkAndPush(object, desc)] tests the
    descriptor's [base_object_payload], not [object], against the sentinel.
    When the payload is the sentinel the call pushes [object] on the
    not-fully-constructed worklist and returns: no header is resolved, no
    mark bit and no other worklist is touched.  Otherwise it acts exactly as
    the header-based overload on the header of the descriptor's payload. *)
Theorem MarkAndPush_dispatches_on_descriptor
  (DEBUG : bool) (ext : Externals) (w : World) (object : Address)
  (desc : TraceDescriptor) :
  (DEBUG = true -> object <> nullptr) ->
  (base_object_payload desc = kNotFullyConstructedObject ext ->
   exists w',
     MarkAndPush DEBUG ext object desc w = Done tt w' /\
     not_fully_constructed_worklist_ (self w') =
       not_fully_constructed_worklist_ (self w) ++ [object] /\
     marking_worklist_ (self w') = marking_worklist_ (self w) /\
     weak_callback_worklist_ (self w') = weak_callback_worklist_ (self w) /\
     memory w' = memory w) /\
  (base_object_payload desc <> kNotFullyConstructedObject ext ->
   MarkAndPush DEBUG ext object desc w =
     MarkAndPush_header DEBUG ext
       (FromPayload ext (base_object_payload desc)) desc w).
Proof.
  intros Hobj.
  assert (Hrun : MarkAndPush DEBUG ext object desc w =
                 if base_object_payload desc =? kNotFullyConstructedObject ext
                 then Done tt (pushed_not_fully_constructed object w)
                 else MarkAndPush_header DEBUG ext
                        (FromPayload ext (base_object_payload desc)) desc w).
  { unfold MarkAndPush. unfold bind at 1.
    rewrite DCHECK_NOT_NULL_passes by assumption.
    now destruct (base_object_payload desc =? kNotFullyConstructedObject ext). }
  rewrite Hrun. split; intros Hp.
  - rewrite Hp, Z.eqb_refl. eexists. split; [reflexivity|]. repeat split.
  - apply Z.eqb_neq in Hp. now rewrite Hp.
Qed.

Lemma MarkAndPush_dispatches_on_descriptor_witness :
  (exists w',
     MarkAndPush true Scenario.ext 5000 Scenario.unit_unconstructed
       Scenario.world = Done tt w' /\
     not_fully_constructed_worklist_ (self w') = [5000]) /\
  MarkAndPush true Scenario.ext 4104 Scenario.unit_a Scenario.world =
    MarkAndPush_header true Scenario.ext 4096 Scenario.unit_a Scenario.world.
Proof.
  split.
  - assert (Hobj : true = true -> 5000 <> nullptr) by (intros _; discriminate).
    destruct (MarkAndPush_dispatches_on_descriptor true Scenario.ext
                Scenario.world 5000 Scenario.unit_unconstructed Hobj)
      as [Hsentinel _].
    destruct (Hsentinel eq_refl) as (w' & Hrun & Hnfc & _).
    exists w'. split; assumption.
  - assert (Hobj : true = true -> 4104 <> nullptr) by (intros _; discriminate).
    destruct (MarkAndPush_dispatches_on_descriptor true Scenario.ext
                Scenario.world 4104 Scenario.unit_a Hobj)
      as [_ Hreal].
    apply Hreal. discriminate.
Defined.

(** ** Marking through an interior address *)

Section Resolution.

Variable hp : Heap.
Variable page : BasePage.

Lemma object_contains_range a s :
  object_contains hp page a s = true <->
  exists n, object_size hp page s = Some n /\ s <= a < s + Z.of_N n.
Proof.
  unfold object_contains. destruct (object_size hp page s) as [n|].
  - rewrite andb_true_iff, Z.leb_le, Z.ltb_lt. split.
    + intros [? ?]. exists n. auto.
    + intros (n' & [= <-] & ? & ?). auto.
  - split; [discriminate | intros (n & [=] & _)].
Qed.

Lemma apart_excludes a s1 s2 :
  apart hp page s1 s2 = true ->
  object_contains hp page a s1 = true ->
  object_contains hp page a s2 = true ->
  False.
Proof.
  unfold apart. intros Hapart H1 H2.
  apply object_contains_range in H1 as (n1 & E1 & R1).
  apply object_contains_range in H2 as (n2 & E2 & R2).
  rewrite E1, E2 in Hapart.
  apply orb_true_iff in Hapart as [H|H]; apply Z.leb_le in H; lia.
Qed.

(** Among objects that do not overlap, the search stops at the one object
    that contains the address. *)
Lemma find_containing_object a starts start :
  disjoint_objects hp page starts = true ->
  In start starts ->
  object_contains hp page a start = true ->
  find (object_contains hp page a) starts = Some start.
Proof.
  induction starts as [|s rest IH]; simpl; [contradiction|].
  intros Hdis Hin Hcontains.
  apply andb_true_iff in Hdis as [Hs Hrest].
  destruct (object_contains hp page a s) eqn:Hcs.
  - destruct Hin as [->|Hin]; [reflexivity|].
    rewrite forallb_forall in Hs.
    destruct (apart_excludes a s start (Hs start Hin) Hcs Hcontains).
  - destruct Hin as [->|Hin]; [congruence|]. now apply IH.
Qed.

End Resolution.

(** C8. For an address strictly inside the storage of a known object,
    [DynamicallyMarkAddress] resolves the header of that object through the
    region registry, and of no other object of the region.  A DEBUG build
    requires the object not to be in construction and dies on the [DCHECK]
    otherwise.  On a constructed object the call attempts the atomic mark
    and, exactly when this call set the bit, pushes one trace unit, made of
    the object's payload and of the trace callback that the type-info table
    gives for the header's own index: after the call the mark bit of the
    object is set, no other header has changed, and the trace-unit worklist
    has grown by that unit if the bit was clear and by nothing if it was
    set. *)
Theorem DynamicallyMarkAddress_marks_containing_object
  (DEBUG : bool) (ext : Externals) (w : World) (address : Address)
  (page : BasePage) (start : Address) (h : HeapObjectHeader) (n : size_t) :
  find (in_page address) (pages (memory w)) = Some page ->
  disjoint_objects (memory w) page (object_starts page) = true ->
  In start (object_starts page) ->
  headers (memory w) !! start = Some h ->
  object_size (memory w) page start = Some n ->
  start < address < start + Z.of_N n ->
  (DEBUG = true ->
   free_bit h = false /\ owner (memory w) start = Some (heap_ (self w))) ->
  let desc :=
    mkTraceDescriptor (Payload ext start)
                      (GCInfoFromIndex_trace ext (gc_info_index h)) in
  let w' := final (DynamicallyMarkAddress DEBUG ext address w) in
  ObjectHeaderFromInnerAddress page address w = Done start w /\
  (forall other, other <> start ->
     ObjectHeaderFromInnerAddress page address w <> Done other w) /\
  (in_construction_bit h = true -> DEBUG = true ->
   DynamicallyMarkAddress DEBUG ext address w = Fatal DcheckFailure w) /\
  (in_construction_bit h = false ->
   returned (MarkNoPush DEBUG start w) = Some (negb (mark_bit h)) /\
   DynamicallyMarkAddress DEBUG ext address w =
     Done tt (if mark_bit h then w
              else pushed_trace_unit desc (marked_world start h w)) /\
   mark_bit <$> headers (memory w') !! start = Some true /\
   (forall a, a <> start ->
      headers (memory w') !! a = headers (memory w) !! a) /\
   marking_worklist_ (self w') =
     marking_worklist_ (self w) ++ (if mark_bit h then [] else [desc]) /\
   not_fully_constructed_worklist_ (self w') =
     not_fully_constructed_worklist_ (self w) /\
   weak_callback_worklist_ (self w') = weak_callback_worklist_ (self w)).
Proof.
  intros Hpage Hdis Hin Hh Hsize Hrange Hpre desc w'.
  assert (Hfind : find (object_contains (memory w) page address)
                       (object_starts page) = Some start).
  { apply find_containing_object; try assumption.
    apply object_contains_range. exists n. split; [assumption | lia]. }
  assert (Hresolve : ObjectHeaderFromInnerAddress page address w = Done start w).
  { unfold ObjectHeaderFromInnerAddress. now rewrite Hfind. }
  split; [exact Hresolve|]. split; [|split].
  - intros other Hne. rewrite Hresolve. congruence.
  - intros Hc ->. unfold DynamicallyMarkAddress.
    unfold bind at 1. unfold BasePage_FromPayload at 1. rewrite Hpage.
    unfold bind at 1. rewrite Hresolve.
    unfold_monad. now rewrite Hh, Hc.
  - intros Hc.
    pose proof (MarkNoPush_checked DEBUG w start h Hh Hpre) as Hmark.
    assert (Hrun : DynamicallyMarkAddress DEBUG ext address w =
                   Done tt (if mark_bit h then w
                            else pushed_trace_unit desc
                                   (marked_world start h w))).
    { unfold DynamicallyMarkAddress.
      unfold bind at 1. unfold BasePage_FromPayload at 1. rewrite Hpage.
      unfold bind at 1. rewrite Hresolve.
      unfold bind at 1.
      assert (Hcheck : DCHECK DEBUG
                         (bind (IsInConstruction start) (fun c => ret (negb c)))
                         w = Done tt w).
      { unfold_monad. destruct DEBUG; [|reflexivity]. now rewrite Hh, Hc. }
      rewrite Hcheck. unfold bind at 1. rewrite Hmark.
      destruct (mark_bit h); simpl; [reflexivity|].
      unfold_monad. simpl. now rewrite lookup_insert_eq. }
    split; [now rewrite Hmark|]. split; [exact Hrun|].
    subst w'. rewrite Hrun. simpl final.
    destruct (mark_bit h) eqn:Hm.
    + rewrite Hh. simpl. rewrite Hm, app_nil_r. repeat split.
    + apply (marked_and_pushed start h desc w).
Qed.

(** An address in the middle of the first object of the scenario, whose
    neighbour starts at 4160: the object at 4096 ends marked, its neighbour
    does not, and one trace unit is on the worklist. *)
Lemma DynamicallyMarkAddress_marks_containing_object_witness :
  let w' := final (DynamicallyMarkAddress true Scenario.ext 4130 Scenario.world) in
  ObjectHeaderFromInnerAddress Scenario.normal_page 4130 Scenario.world =
    Done 4096 Scenario.world /\
  DynamicallyMarkAddress true Scenario.ext 4130 Scenario.world = Done tt w' /\
  mark_bit <$> headers (memory w') !! 4096 = Some true /\
  headers (memory w') !! 4160 = Some Scenario.object_b /\
  marking_worklist_ (self w') = [mkTraceDescriptor 4104 1003].
Proof.
  assert (Hpage : find (in_page 4130) (pages (memory Scenario.world)) =
                    Some Scenario.normal_page) by reflexivity.
  assert (Hdis : disjoint_objects (memory Scenario.world) Scenario.normal_page
                   (object_starts Scenario.normal_page) = true) by reflexivity.
  assert (Hin : In 4096 (object_starts Scenario.normal_page))
    by (left; reflexivity).
  assert (Hh : headers (memory Scenario.world) !! 4096 = Some Scenario.object_a)
    by reflexivity.
  assert (Hsize : object_size (memory Scenario.world) Scenario.normal_page 4096
                  = Some 64%N) by reflexivity.
  assert (Hrange : 4096 < 4130 < 4096 + Z.of_N 64) by (simpl; lia).
  assert (Hpre : true = true ->
                 free_bit Scenario.object_a = false /\
                 owner (memory Scenario.world) 4096 =
                   Some (heap_ (self Scenario.world)))
    by (intros _; split; reflexivity).
  destruct (DynamicallyMarkAddress_marks_containing_object true Scenario.ext
              Scenario.world 4130 Scenario.normal_page 4096 Scenario.object_a
              64%N Hpage Hdis Hin Hh Hsize Hrange Hpre)
    as (Hresolve & _ & _ & Hrun).
  destruct (Hrun eq_refl) as (_ & Hdone & Hmarked & Hothers & Hpushed & _).
  intros w'. split; [exact Hresolve|]. split; [|split; [|split]].
  - subst w'. now rewrite Hdone.
  - exact Hmarked.
  - subst w'. rewrite (Hothers 4160) by discriminate. reflexivity.
  - exact Hpushed.
Defined.

(** ** The marked-byte counter *)

Section Frame.

Variable DEBUG : bool.
Variable ext : Externals.

Lemma keeps_ret {A} (a : A) : keeps_marked_bytes (ret a).
Proof. intros w. reflexivity. Qed.

Lemma keeps_fatal {A} f : keeps_marked_bytes (@fatal A f).
Proof. intros w. reflexivity. Qed.

Lemma keeps_bind {A B} (c : M A) (k : A -> M B) :
  keeps_marked_bytes c -> (forall a, keeps_marked_bytes (k a)) ->
  keeps_marked_bytes (bind c k).
Proof.
  intros Hc Hk w. unfold bind. specialize (Hc w).
  destruct (c w) as [a w1|f w1]; simpl in *; [|assumption].
  now rewrite Hk.
Qed.

Lemma keeps_load a : keeps_marked_bytes (load a).
Proof. intros w. unfold load. now destruct (headers (memory w) !! a). Qed.

Lemma keeps_store a h : keeps_marked_bytes (store a h).
Proof. intros w. reflexivity. Qed.

Lemma keeps_this : keeps_marked_bytes this.
Proof. intros w. reflexivity. Qed.

Lemma keeps_BasePage_FromPayload a : keeps_marked_bytes (BasePage_FromPayload a).
Proof.
  intros w. unfold BasePage_FromPayload.
  now destruct (find (in_page a) (pages (memory w))).
Qed.

Lemma keeps_ObjectHeaderFromInnerAddress page a :
  keeps_marked_bytes (ObjectHeaderFromInnerAddress page a).
Proof.
  intros w. unfold ObjectHeaderFromInnerAddress.
  now destruct (find (object_contains (memory w) page a) (object_starts page)).
Qed.

Lemma keeps_update_this f :
  (forall ms, marked_bytes_ (f ms) = marked_bytes_ ms) ->
  keeps_marked_bytes (update_this f).
Proof. intros Hf w. unfold update_this, marked_bytes. simpl. apply Hf. Qed.

Lemma keeps_Create : keeps_marked_bytes LivenessBrokerFactory_Create.
Proof. intros w. reflexivity. Qed.

Lemma keeps_call_weak_callback f b p :
  keeps_marked_bytes (call_weak_callback f b p).
Proof. intros w. reflexivity. Qed.

End Frame.

Create HintDb frame.
#[local] Hint Resolve keeps_ret keeps_fatal keeps_load keeps_store keeps_this
  keeps_BasePage_FromPayload keeps_ObjectHeaderFromInnerAddress keeps_Create
  keeps_call_weak_callback : frame.

Ltac frame_step :=
  match goal with
  | |- keeps_marked_bytes (bind _ _) => apply keeps_bind; [|intros ?]
  | |- keeps_marked_bytes (update_this _) =>
      apply keeps_update_this; intros ?; reflexivity
  | |- keeps_marked_bytes (if ?b then _ else _) => destruct b
  | |- keeps_marked_bytes _ => solve [auto with frame]
  end.

Ltac frame :=
  unfold DCHECK_NOT_NULL, DCHECK, IsInConstruction, IsMarked, IsFree, GetSize,
    GetGCInfoIndex, TryMarkAtomic, RegisterWeakCallback;
  repeat frame_step.

Section FrameOfCalls.

Variable DEBUG : bool.
Variable ext : Externals.

Lemma keeps_MarkNoPush header : keeps_marked_bytes (MarkNoPush DEBUG header).
Proof. unfold MarkNoPush. frame. Qed.

Lemma keeps_MarkAndPush_header header desc :
  keeps_marked_bytes (MarkAndPush_header DEBUG ext header desc).
Proof.
  unfold MarkAndPush_header. frame. apply keeps_MarkNoPush.
Qed.

Lemma keeps_MarkAndPush object desc :
  keeps_marked_bytes (MarkAndPush DEBUG ext object desc).
Proof. unfold MarkAndPush. frame. apply keeps_MarkAndPush_header. Qed.

Lemma keeps_MarkAndPush_own header :
  keeps_marked_bytes (MarkAndPush_own DEBUG ext header).
Proof. unfold MarkAndPush_own. frame. apply keeps_MarkAndPush_header. Qed.

Lemma keeps_DynamicallyMarkAddress address :
  keeps_marked_bytes (DynamicallyMarkAddress DEBUG ext address).
Proof. unfold DynamicallyMarkAddress. frame. apply keeps_MarkNoPush. Qed.

Lemma keeps_RegisterWeakCallback f object :
  keeps_marked_bytes (RegisterWeakCallback f object).
Proof. frame. Qed.

Lemma keeps_RegisterWeakReferenceIfNeeded object desc f parameter :
  keeps_marked_bytes (RegisterWeakReferenceIfNeeded ext object desc f parameter).
Proof. unfold RegisterWeakReferenceIfNeeded. frame. Qed.

Lemma keeps_InvokeWeakRootsCallbackIfNeeded object desc f parameter :
  keeps_marked_bytes
    (InvokeWeakRootsCallbackIfNeeded ext object desc f parameter).
Proof. unfold InvokeWeakRootsCallbackIfNeeded. frame. Qed.

Lemma keeps_perform c :
  is_account c = false -> keeps_marked_bytes (perform DEBUG ext c).
Proof.
  destruct c; simpl; intros Hc; try discriminate;
    auto using keeps_MarkAndPush, keeps_MarkAndPush_header,
      keeps_MarkAndPush_own, keeps_DynamicallyMarkAddress,
      keeps_RegisterWeakReferenceIfNeeded, keeps_RegisterWeakCallback,
      keeps_InvokeWeakRootsCallbackIfNeeded.
  apply keeps_bind; [apply keeps_MarkNoPush | intros; apply keeps_ret].
Qed.

(** One call never lowers the counter as long as its addition fits. *)
Lemma perform_grows c w :
  fits ext c w = true ->
  (marked_bytes w <= marked_bytes (final (perform DEBUG ext c w)))%N.
Proof.
  intros Hfit. destruct (is_account c) eqn:Hc.
  - destruct c; try discriminate. simpl in *.
    rewrite AccountMarkedBytes_run.
    destruct (accounted_size (memory w) header) as [n|]; simpl; [|lia].
    apply N.ltb_lt in Hfit. unfold marked_bytes in *. simpl.
    unfold size_t_add. rewrite N.mod_small by assumption. lia.
  - rewrite (keeps_perform c Hc w). lia.
Qed.

Lemma observe_sorted calls :
  forall w,
    no_wrap DEBUG ext calls w = true ->
    StronglySorted N.le (marked_bytes w :: observe DEBUG ext calls w).
Proof.
  induction calls as [|c rest IH]; intros w Hfit; simpl in *.
  - constructor; constructor.
  - apply andb_true_iff in Hfit as [Hc Hrest].
    pose proof (perform_grows c w Hc) as Hgrow.
    destruct (perform DEBUG ext c w) as [[] w'|f w']; simpl in *.
    + specialize (IH w' Hrest).
      constructor; [exact IH|].
      inversion IH as [|x l Hsorted Hall]; subst.
      constructor; [exact Hgrow|].
      eapply Forall_impl; [exact Hall|].
      intros y Hy. simpl in Hy. lia.
    + constructor; constructor.
Qed.

End FrameOfCalls.

(** The claim C9 fails when the counter leaves [size_t]: from a task that
    has just been constructed, accounting the 2 GiB object of the scenario
    twice makes [marked_bytes()] return 2147483648 and then 0. *)
Lemma marked_bytes_decreases_after_wrap :
  marked_bytes Scenario.world = 0%N /\
  observe false Scenario.ext
    [Call_AccountMarkedBytes 1048576; Call_AccountMarkedBytes 1048576]
    Scenario.world = [2147483648; 0]%N /\
  (0 < 2147483648)%N.
Proof. repeat split. Qed.

(** C9, amended. The counter of a [MarkingState] is zero at construction,
    and over every sequence of calls in which each addition of
    [AccountMarkedBytes] fits in [size_t], [marked_bytes()] never returns
    less than it returned before. *)
Theorem marked_bytes_monotone_within_size_t
  (DEBUG : bool) (ext : Externals) (hp : Heap) (heap : HeapBase)
  (calls : list Call) :
  no_wrap DEBUG ext calls (fresh_task hp heap) = true ->
  marked_bytes (fresh_task hp heap) = 0%N /\
  StronglySorted N.le
    (marked_bytes (fresh_task hp heap)
       :: observe DEBUG ext calls (fresh_task hp heap)).
Proof.
  intros Hfit. split; [reflexivity|]. now apply observe_sorted.
Qed.

(** Marking the first object of the scenario, then accounting it and the
    large object: 0, 0, 64, 2147483712. *)
Lemma marked_bytes_monotone_within_size_t_witness :
  StronglySorted N.le
    (0%N :: observe true Scenario.ext
              [Call_MarkAndPush_header 4096 Scenario.unit_a;
               Call_AccountMarkedBytes 4096;
               Call_AccountMarkedBytes 1048576]
              Scenario.world).
Proof.
  assert (Hfit : no_wrap true Scenario.ext
                   [Call_MarkAndPush_header 4096 Scenario.unit_a;
                    Call_AccountMarkedBytes 4096;
                    Call_AccountMarkedBytes 1048576]
                   (fresh_task Scenario.heap 1) = true) by reflexivity.
  exact (proj2 (marked_bytes_monotone_within_size_t true Scenario.ext
                  Scenario.heap 1 _ Hfit)).
Defined.

(** C10. Every public member function other than [AccountMarkedBytes]
    (both [MarkAndPush] overloads, the header-only form, [MarkNoPush],
    [DynamicallyMarkAddress], [RegisterWeakReferenceIfNeeded],
    [RegisterWeakCallback], [InvokeWeakRootsCallbackIfNeeded]) leaves
    [marked_bytes()] as it was, however the call ends: marking an object
    does not account its size. *)
Theorem only_AccountMarkedBytes_changes_marked_bytes
  (DEBUG : bool) (ext : Externals) (c : Call) (w : World) :
  is_account c = false ->
  marked_bytes (final (perform DEBUG ext c w)) = marked_bytes w /\
  (forall header,
     marked_bytes (final (MarkNoPush DEBUG header w)) = marked_bytes w).
Proof.
  intros Hc. split.
  - now apply keeps_perform.
  - intros header. apply keeps_MarkNoPush.
Qed.

(** Marking the first object of the scenario leaves the counter at 0. *)
Lemma only_AccountMarkedBytes_changes_marked_bytes_witness :
  marked_bytes
    (final (MarkAndPush true Scenario.ext 4104 Scenario.unit_a Scenario.world))
  = 0%N.
Proof.
  exact (proj1 (only_AccountMarkedBytes_changes_marked_bytes true Scenario.ext
                  (Call_MarkAndPush 4104 Scenario.unit_a) Scenario.world
                  eq_refl)).
Defined.

(** ** What any call does *)

Section ReadOnly.

Variable DEBUG : bool.

Lemma read_only_ret {A} (a : A) : read_only (ret a).
Proof. intros w. left. now exists a. Qed.

Lemma read_only_fatal {A} f : read_only (@fatal A f).
Proof. intros w. right. now exists f. Qed.

Lemma read_only_bind {A B} (c : M A) (k : A -> M B) :
  read_only c -> (forall a, read_only (k a)) -> read_only (bind c k).
Proof.
  intros Hc Hk w. unfold bind.
  destruct (Hc w) as [[a ->]|[f ->]]; [apply Hk | right; now exists f].
Qed.

Lemma read_only_load a : read_only (load a).
Proof.
  intros w. unfold load. destruct (headers (memory w) !! a) as [h|].
  - left. now exists h.
  - right. now exists InvalidAccess.
Qed.

Lemma read_only_this : read_only this.
Proof. intros w. left. now exists (self w). Qed.

Lemma read_only_BasePage_FromPayload a : read_only (BasePage_FromPayload a).
Proof.
  intros w. unfold BasePage_FromPayload.
  destruct (find (in_page a) (pages (memory w))) as [page|].
  - left. now exists page.
  - right. now exists InvalidAccess.
Qed.

Lemma read_only_ObjectHeaderFromInnerAddress page a :
  read_only (ObjectHeaderFromInnerAddress page a).
Proof.
  intros w. unfold ObjectHeaderFromInnerAddress.
  destruct (find (object_contains (memory w) page a) (object_starts page))
    as [start|].
  - left. now exists start.
  - right. now exists InvalidAccess.
Qed.

Lemma read_only_DCHECK cond : read_only cond -> read_only (DCHECK DEBUG cond).
Proof.
  intros Hc. unfold DCHECK. destruct DEBUG; [|apply read_only_ret].
  apply read_only_bind; [assumption|].
  intros []; [apply read_only_ret | apply read_only_fatal].
Qed.

End ReadOnly.

Create HintDb read_only.
#[local] Hint Resolve read_only_ret read_only_fatal read_only_load
  read_only_this read_only_BasePage_FromPayload
  read_only_ObjectHeaderFromInnerAddress : read_only.

Ltac read_only_step :=
  match goal with
  | |- read_only (bind _ _) => apply read_only_bind; [|intros ?]
  | |- read_only (DCHECK _ _) => apply read_only_DCHECK
  | |- read_only (if ?b then _ else _) => destruct b
  | |- read_only (match page_type ?p with _ => _ end) => destruct (page_type p)
  | |- read_only _ => solve [auto with read_only]
  end.

Ltac read_only :=
  unfold DCHECK_NOT_NULL, IsInConstruction, IsMarked, IsFree, GetSize,
    GetGCInfoIndex, IsLargeObject, LargePage_PayloadSize;
  repeat read_only_step.

Section Effects.

Variable DEBUG : bool.
Variable ext : Externals.

Lemma effect_read_only {A} bare (c : M A) w :
  read_only c -> effect_of bare w (c w).
Proof.
  intros Hc. destruct (Hc w) as [[a ->]|[f ->]]; simpl;
    [constructor | reflexivity].
Qed.

(** After a computation that writes nothing, what the rest does is what
    the whole does. *)
Lemma effect_bind {A B} bare (c : M A) (k : A -> M B) w :
  read_only c ->
  (forall a, c w = Done a w -> effect_of bare w (k a w)) ->
  effect_of bare w (bind c k w).
Proof.
  intros Hc Hk. unfold bind. destruct (Hc w) as [[a E]|[f E]]; rewrite E.
  - now apply Hk.
  - reflexivity.
Qed.

Lemma TryMarkAtomic_cases header w :
  MarkNoPush false header w = TryMarkAtomic header w /\
  ((TryMarkAtomic header w = Fatal InvalidAccess w /\
    headers (memory w) !! header = None) \/
   (exists h, headers (memory w) !! header = Some h /\ mark_bit h = true /\
              TryMarkAtomic header w = Done false w) \/
   (exists h, headers (memory w) !! header = Some h /\ mark_bit h = false /\
              TryMarkAtomic header w = Done true (marked_world header h w))).
Proof.
  split; [reflexivity|]. unfold_monad.
  destruct (headers (memory w) !! header) as [h|] eqn:Hh.
  - right. destruct (mark_bit h) eqn:Hm; [left | right]; now exists h.
  - left. split; reflexivity.
Qed.

(** [MarkNoPush] dies without a write, or finds the bit set, or sets it. *)
Lemma MarkNoPush_cases header w :
  (exists f, MarkNoPush DEBUG header w = Fatal f w) \/
  (exists h, headers (memory w) !! header = Some h /\ mark_bit h = true /\
             MarkNoPush DEBUG header w = Done false w) \/
  (exists h, headers (memory w) !! header = Some h /\ mark_bit h = false /\
             MarkNoPush DEBUG header w = Done true (marked_world header h w)).
Proof.
  assert (H1 : read_only
                 (DCHECK DEBUG
                    (bind this (fun ms =>
                       bind (BasePage_FromPayload header) (fun page =>
                         ret (heap_ ms =? page_heap page)))))) by read_only.
  assert (H2 : read_only
                 (DCHECK DEBUG
                    (bind (IsFree header) (fun free => ret (negb free)))))
    by read_only.
  assert (Hrun : MarkNoPush DEBUG header w = TryMarkAtomic header w \/
                 exists f, MarkNoPush DEBUG header w = Fatal f w).
  { unfold MarkNoPush, bind in *.
    destruct (H1 w) as [[[] E1]|[f E1]]; rewrite E1; [|right; now exists f].
    destruct (H2 w) as [[[] E2]|[f E2]]; rewrite E2; [|right; now exists f].
    now left. }
  destruct Hrun as [->|Hdies]; [|now left].
  destruct (TryMarkAtomic_cases header w) as [_ [[-> _]|[H|H]]].
  - left. now exists InvalidAccess.
  - right. now left.
  - right. now right.
Qed.

Lemma MarkNoPush_effect header w :
  effect_of true w (MarkNoPush DEBUG header w).
Proof.
  destruct (MarkNoPush_cases header w)
    as [[f ->]|[(h & Hh & Hm & ->)|(h & Hh & Hm & ->)]]; simpl.
  - reflexivity.
  - constructor.
  - now apply effect_mark.
Qed.

Lemma MarkAndPush_header_effect header desc w :
  effect_of false w (MarkAndPush_header DEBUG ext header desc w).
Proof.
  unfold MarkAndPush_header.
  apply effect_bind; [read_only|]. intros _ _.
  apply effect_bind; [read_only|]. intros [] _.
  - apply effect_defer.
  - unfold bind.
    destruct (MarkNoPush_cases header w)
      as [[f ->]|[(h & Hh & Hm & ->)|(h & Hh & Hm & ->)]]; simpl.
    + reflexivity.
    + constructor.
    + now apply (effect_mark_and_push false w header h desc).
Qed.

Lemma MarkAndPush_effect object desc w :
  effect_of false w (MarkAndPush DEBUG ext object desc w).
Proof.
  unfold MarkAndPush.
  apply effect_bind; [read_only|]. intros _ _.
  destruct (base_object_payload desc =? kNotFullyConstructedObject ext).
  - apply effect_defer.
  - apply MarkAndPush_header_effect.
Qed.

Lemma MarkAndPush_own_effect header w :
  effect_of false w (MarkAndPush_own DEBUG ext header w).
Proof.
  unfold MarkAndPush_own.
  apply effect_bind; [read_only|]. intros index _.
  apply MarkAndPush_header_effect.
Qed.

Lemma DynamicallyMarkAddress_effect address w :
  effect_of false w (DynamicallyMarkAddress DEBUG ext address w).
Proof.
  unfold DynamicallyMarkAddress.
  apply effect_bind; [read_only|]. intros page _.
  apply effect_bind; [read_only|]. intros header _.
  apply effect_bind; [read_only|]. intros _ _.
  unfold bind at 1.
  destruct (MarkNoPush_cases header w)
    as [[f ->]|[(h & Hh & Hm & ->)|(h & Hh & Hm & ->)]]; simpl.
  - reflexivity.
  - constructor.
  - unfold_monad. simpl. rewrite lookup_insert_eq.
    now apply (effect_mark_and_push false w header h).
Qed.

Lemma RegisterWeakReferenceIfNeeded_effect object desc f parameter w :
  effect_of false w
    (RegisterWeakReferenceIfNeeded ext object desc f parameter w).
Proof.
  unfold RegisterWeakReferenceIfNeeded.
  apply effect_bind; [read_only|]. intros [] _.
  - constructor.
  - apply effect_register.
Qed.

Lemma InvokeWeakRootsCallbackIfNeeded_effect object desc f parameter w :
  effect_of false w
    (InvokeWeakRootsCallbackIfNeeded ext object desc f parameter w).
Proof.
  unfold InvokeWeakRootsCallbackIfNeeded.
  destruct (base_object_payload desc =? kNotFullyConstructedObject ext).
  - apply effect_none.
  - apply (effect_invoke false w f parameter).
Qed.

Lemma AccountMarkedBytes_effect header w :
  effect_of false w (AccountMarkedBytes ext header w).
Proof.
  rewrite AccountMarkedBytes_run.
  destruct (accounted_size (memory w) header) as [n|]; simpl.
  - apply effect_account.
  - reflexivity.
Qed.

Lemma perform_effect c w :
  effect_of (is_mark_no_push c) w (perform DEBUG ext c w).
Proof.
  destruct c; simpl perform; simpl is_mark_no_push.
  - apply MarkAndPush_effect.
  - apply MarkAndPush_header_effect.
  - apply MarkAndPush_own_effect.
  - unfold bind.
    destruct (MarkNoPush_cases header w)
      as [[f ->]|[(h & Hh & Hm & ->)|(h & Hh & Hm & ->)]]; simpl.
    + reflexivity.
    + constructor.
    + now apply effect_mark.
  - apply DynamicallyMarkAddress_effect.
  - apply RegisterWeakReferenceIfNeeded_effect.
  - apply effect_register.
  - apply InvokeWeakRootsCallbackIfNeeded_effect.
  - apply AccountMarkedBytes_effect.
Qed.

End Effects.

(** ** Invariants of every sequence of calls *)

Lemma header_kept_refl h : header_kept h h.
Proof. repeat split; auto. Qed.

Lemma header_kept_trans h1 h2 h3 :
  header_kept h1 h2 -> header_kept h2 h3 -> header_kept h1 h3.
Proof.
  intros (A1 & A2 & A3 & A4 & A5) (B1 & B2 & B3 & B4 & B5).
  repeat split; try congruence. auto.
Qed.

Lemma only_marks_refl hp : only_marks hp hp.
Proof.
  split; [reflexivity|]. intros a.
  destruct (headers hp !! a); [apply header_kept_refl | exact I].
Qed.

Lemma only_marks_trans hp1 hp2 hp3 :
  only_marks hp1 hp2 -> only_marks hp2 hp3 -> only_marks hp1 hp3.
Proof.
  intros [P12 H12] [P23 H23]. split; [congruence|]. intros a.
  specialize (H12 a). specialize (H23 a).
  destruct (headers hp1 !! a), (headers hp2 !! a), (headers hp3 !! a);
    try contradiction; [eapply header_kept_trans; eassumption | exact I].
Qed.

Lemma only_marks_marked_world a h w :
  headers (memory w) !! a = Some h ->
  only_marks (memory w) (memory (marked_world a h w)).
Proof.
  intros Hh. split; [reflexivity|]. intros b. simpl.
  destruct (decide (a = b)) as [<-|Hne].
  - rewrite Hh, lookup_insert_eq. repeat split; auto.
  - rewrite lookup_insert_ne by assumption.
    destruct (headers (memory w) !! b); [apply header_kept_refl | exact I].
Qed.

Lemma Effect_only_marks bare w w' :
  Effect bare w w' -> only_marks (memory w) (memory w').
Proof.
  destruct 1; simpl; try apply only_marks_refl;
    now apply (only_marks_marked_world a h w).
Qed.

Lemma extends_refl w : extends 0 w w.
Proof. exists [], [], []. now rewrite !app_nil_r. Qed.

Lemma extends_trans n m w1 w2 w3 :
  extends n w1 w2 -> extends m w2 w3 -> extends (n + m) w1 w3.
Proof.
  intros (a1 & a2 & a3 & A1 & A2 & A3 & An) (b1 & b2 & b3 & B1 & B2 & B3 & Bm).
  exists (a1 ++ b1), (a2 ++ b2), (a3 ++ b3).
  rewrite B1, B2, B3, A1, A2, A3, !app_assoc, !length_app.
  repeat split. lia.
Qed.

Lemma extends_weaken n m w w' : (n <= m)%nat -> extends n w w' -> extends m w w'.
Proof.
  intros Hnm (s1 & s2 & s3 & H1 & H2 & H3 & Hn).
  exists s1, s2, s3. repeat split; auto. lia.
Qed.

Lemma Effect_extends bare w w' : Effect bare w w' -> extends 1 w w'.
Proof.
  destruct 1; simpl.
  - apply (extends_weaken 0); [lia | apply extends_refl].
  - exists [], [], []. simpl. rewrite !app_nil_r. repeat split; lia.
  - exists [desc], [], []. simpl. rewrite !app_nil_r. repeat split; lia.
  - exists [], [a], []. simpl. rewrite !app_nil_r. repeat split; lia.
  - exists [], [], [item]. simpl. rewrite !app_nil_r. repeat split; lia.
  - exists [], [], []. simpl. rewrite !app_nil_r. repeat split; lia.
  - exists [], [], []. simpl. rewrite !app_nil_r. repeat split; lia.
Qed.

(** ** Deaths on a [DCHECK] *)

Section ChecksCompiledOut.

Variable ext : Externals.

Lemma passes_ret {A} (a : A) : passes_checks (ret a).
Proof. intros w w'. discriminate. Qed.

Lemma passes_invalid {A} : passes_checks (@fatal A InvalidAccess).
Proof. intros w w'. discriminate. Qed.

Lemma passes_bind {A B} (c : M A) (k : A -> M B) :
  passes_checks c -> (forall a, passes_checks (k a)) ->
  passes_checks (bind c k).
Proof.
  intros Hc Hk w w'. unfold bind. specialize (Hc w).
  destruct (c w) as [a w1|f w1]; [apply Hk|].
  intros [= -> ->]. now apply (Hc w').
Qed.

Lemma passes_load a : passes_checks (load a).
Proof.
  intros w w'. unfold load.
  destruct (headers (memory w) !! a); discriminate.
Qed.

Lemma passes_store a h : passes_checks (store a h).
Proof. intros w w'. discriminate. Qed.

Lemma passes_this : passes_checks this.
Proof. intros w w'. discriminate. Qed.

Lemma passes_update_this f : passes_checks (update_this f).
Proof. intros w w'. discriminate. Qed.

Lemma passes_BasePage_FromPayload a : passes_checks (BasePage_FromPayload a).
Proof.
  intros w w'. unfold BasePage_FromPayload.
  destruct (find (in_page a) (pages (memory w))); discriminate.
Qed.

Lemma passes_ObjectHeaderFromInnerAddress page a :
  passes_checks (ObjectHeaderFromInnerAddress page a).
Proof.
  intros w w'. unfold ObjectHeaderFromInnerAddress.
  destruct (find (object_contains (memory w) page a) (object_starts page));
    discriminate.
Qed.

Lemma passes_Create : passes_checks LivenessBrokerFactory_Create.
Proof. intros w w'. discriminate. Qed.

Lemma passes_call_weak_callback f b p :
  passes_checks (call_weak_callback f b p).
Proof. intros w w'. discriminate. Qed.

(** Without DEBUG a [DCHECK] is no code at all. *)
Lemma passes_DCHECK_compiled_out cond : passes_checks (DCHECK false cond).
Proof. apply passes_ret. Qed.

End ChecksCompiledOut.

Create HintDb passes.
#[local] Hint Resolve passes_ret passes_invalid passes_load passes_store
  passes_this passes_update_this passes_BasePage_FromPayload
  passes_ObjectHeaderFromInnerAddress passes_Create passes_call_weak_callback
  passes_DCHECK_compiled_out : passes.

Ltac passes_step :=
  match goal with
  | |- passes_checks (bind _ _) => apply passes_bind; [|intros ?]
  | |- passes_checks (DCHECK false _) => apply passes_DCHECK_compiled_out
  | |- passes_checks (if ?b then _ else _) => destruct b
  | |- passes_checks (match page_type ?p with _ => _ end) =>
      destruct (page_type p)
  | |- passes_checks _ => solve [auto with passes]
  end.

Ltac passes :=
  unfold MarkAndPush, MarkAndPush_own, DynamicallyMarkAddress,
    RegisterWeakReferenceIfNeeded, InvokeWeakRootsCallbackIfNeeded,
    AccountMarkedBytes, MarkAndPush_header, RegisterWeakCallback, MarkNoPush,
    DCHECK_NOT_NULL, IsInConstruction, IsMarked, IsFree, GetSize,
    GetGCInfoIndex, TryMarkAtomic, IsLargeObject, LargePage_PayloadSize;
  repeat passes_step.

Lemma perform_passes_checks_without_DEBUG ext c :
  passes_checks (perform false ext c).
Proof. destruct c; simpl perform; passes. Qed.

(** X1. A call dies on a [DCHECK] only in a DEBUG build, and then it has
    written nothing: every [DCHECK] of the marking state comes before the
    first write of its call, so the world at the point of death is the
    world the call started in. *)
Theorem failed_DCHECK_writes_nothing
  (DEBUG : bool) (ext : Externals) (c : Call) (w w' : World) :
  perform DEBUG ext c w = Fatal DcheckFailure w' ->
  DEBUG = true /\
  w' = w /\
  memory (final (perform DEBUG ext c w)) = memory w /\
  self (final (perform DEBUG ext c w)) = self w.
Proof.
  intros Hdead. destruct DEBUG.
  - pose proof (perform_effect true ext c w) as He.
    rewrite Hdead in *. simpl in He. subst w'. repeat split.
  - now destruct (perform_passes_checks_without_DEBUG ext c w w').
Qed.

(** An interior address of the object in construction, in a DEBUG build:
    the call dies and the object is still unmarked. *)
Lemma failed_DCHECK_writes_nothing_witness :
  perform true Scenario.ext (Call_DynamicallyMarkAddress 4170) Scenario.world
    = Fatal DcheckFailure Scenario.world /\
  headers
    (memory (final (perform true Scenario.ext (Call_DynamicallyMarkAddress 4170)
                      Scenario.world))) !! 4160 = Some Scenario.object_b.
Proof.
  assert (Hdead : perform true Scenario.ext (Call_DynamicallyMarkAddress 4170)
                    Scenario.world = Fatal DcheckFailure Scenario.world)
    by reflexivity.
  destruct (failed_DCHECK_writes_nothing true Scenario.ext
              (Call_DynamicallyMarkAddress 4170) Scenario.world Scenario.world
              Hdead) as (_ & _ & Hmem & _).
  split; [exact Hdead|]. rewrite Hmem. reflexivity.
Defined.

(** X2. In every call other than [MarkNoPush], pushing a trace unit and
    setting a mark bit go together: either the heap and the trace-unit
    worklist are both as before, or exactly one header, unmarked before, is
    marked after the call, every other header is as before, and exactly one
    trace unit was pushed. *)
Theorem perform_pushes_with_mark
  (DEBUG : bool) (ext : Externals) (c : Call) (w : World) :
  is_mark_no_push c = false ->
  let w' := final (perform DEBUG ext c w) in
  (memory w' = memory w /\
   marking_worklist_ (self w') = marking_worklist_ (self w)) \/
  (exists a h desc,
     headers (memory w) !! a = Some h /\ mark_bit h = false /\
     mark_bit <$> headers (memory w') !! a = Some true /\
     (forall b, b <> a ->
        headers (memory w') !! b = headers (memory w) !! b) /\
     pages (memory w') = pages (memory w) /\
     marking_worklist_ (self w') = marking_worklist_ (self w) ++ [desc]).
Proof.
  intros Hc w'. subst w'.
  pose proof (perform_effect DEBUG ext c w) as He. rewrite Hc in He.
  destruct (perform DEBUG ext c w) as [r w'|f w']; simpl in *.
  - destruct He; simpl; try (left; split; reflexivity).
    + discriminate.
    + right. exists a, h, desc.
      destruct (marked_and_pushed a h desc w) as (Hm & Ho & Hp & _).
      repeat split; assumption.
  - subst. left. split; reflexivity.
Qed.

(** The header-only form on the first object of the scenario: the object
    ends marked and one trace unit is on the worklist. *)
Lemma perform_pushes_with_mark_witness :
  let w' :=
    final (perform true Scenario.ext (Call_MarkAndPush_own 4096)
             Scenario.world) in
  mark_bit <$> headers (memory w') !! 4096 = Some true /\
  length (marking_worklist_ (self w')) = 1%nat.
Proof.
  intros w'.
  destruct (perform_pushes_with_mark true Scenario.ext
              (Call_MarkAndPush_own 4096) Scenario.world eq_refl)
    as [[_ Hsame]|(a & h & desc & _ & _ & _ & _ & _ & Hpushed)].
  - discriminate Hsame.
  - split; [reflexivity|]. subst w'. rewrite Hpushed. reflexivity.
Defined.

Section Sequences.

Variable DEBUG : bool.
Variable ext : Externals.

Lemma perform_final_effect c w :
  Effect (is_mark_no_push c) w (final (perform DEBUG ext c w)).
Proof.
  pose proof (perform_effect DEBUG ext c w) as He.
  destruct (perform DEBUG ext c w) as [r w'|f w']; simpl in *.
  - exact He.
  - subst. constructor.
Qed.

Lemma perform_all_only_marks calls :
  forall w, only_marks (memory w) (memory (perform_all DEBUG ext calls w)).
Proof.
  induction calls as [|c rest IH]; intros w; simpl.
  - apply only_marks_refl.
  - pose proof (perform_final_effect c w) as He.
    apply Effect_only_marks in He.
    destruct (perform DEBUG ext c w) as [r w'|f w']; simpl in *.
    + eapply only_marks_trans; [exact He | apply IH].
    + exact He.
Qed.

Lemma perform_all_extends calls :
  forall w, extends (length calls) w (perform_all DEBUG ext calls w).
Proof.
  induction calls as [|c rest IH]; intros w; simpl.
  - apply extends_refl.
  - pose proof (perform_final_effect c w) as He.
    apply Effect_extends in He.
    destruct (perform DEBUG ext c w) as [r w'|f w']; simpl in *.
    + apply (extends_trans 1 (length rest) w w'); [exact He | apply IH].
    + apply (extends_weaken 1); [lia | exact He].
Qed.

End Sequences.

(** X3. Over every sequence of calls, no mark bit is ever cleared and no
    other attribute of any header changes: a header is kept with its
    in-construction bit, free bit, size and type index, a set mark bit
    stays set, no header appears or disappears, and the regions are as
    they were. *)
Theorem mark_bits_only_set
  (DEBUG : bool) (ext : Externals) (calls : list Call) (w : World) :
  let w' := perform_all DEBUG ext calls w in
  pages (memory w') = pages (memory w) /\
  (forall a, headers (memory w) !! a = None -> headers (memory w') !! a = None) /\
  (forall a h,
     headers (memory w) !! a = Some h ->
     exists h',
       headers (memory w') !! a = Some h' /\
       in_construction_bit h' = in_construction_bit h /\
       free_bit h' = free_bit h /\
       size_field h' = size_field h /\
       gc_info_index h' = gc_info_index h /\
       (mark_bit h = true -> mark_bit h' = true)).
Proof.
  intros w'. destruct (perform_all_only_marks DEBUG ext calls w) as [Hp Hh].
  fold w' in Hp, Hh. split; [exact Hp|]. split.
  - intros a Ha. specialize (Hh a). rewrite Ha in Hh.
    now destruct (headers (memory w') !! a).
  - intros a h Ha. specialize (Hh a). rewrite Ha in Hh.
    destruct (headers (memory w') !! a) as [h'|]; [|contradiction].
    exists h'. split; [reflexivity | exact Hh].
Qed.

(** X4. Over every sequence of [n] calls, no worklist loses or reorders an
    entry: each of the three worklists ends as its old content followed by
    new entries, and at most [n] entries are new in all, one per call. *)
Theorem worklists_only_grow
  (DEBUG : bool) (ext : Externals) (calls : list Call) (w : World) :
  let w' := perform_all DEBUG ext calls w in
  exists s1 s2 s3,
    marking_worklist_ (self w') = marking_worklist_ (self w) ++ s1 /\
    not_fully_constructed_worklist_ (self w') =
      not_fully_constructed_worklist_ (self w) ++ s2 /\
    weak_callback_worklist_ (self w') = weak_callback_worklist_ (self w) ++ s3 /\
    (length s1 + length s2 + length s3 <= length calls)%nat.
Proof. intros w'. apply (perform_all_extends DEBUG ext calls w). Qed.

(** ** Marking leaves the layout of the heap alone *)

Section Layout.

Variables hp hp' : Heap.
Hypothesis Hmarks : only_marks hp hp'.

Lemma only_marks_object_size page start :
  object_size hp' page start = object_size hp page start.
Proof.
  unfold object_size. destruct (page_type page); [|reflexivity].
  destruct Hmarks as [_ Hh]. specialize (Hh start).
  destruct (headers hp !! start) as [h|], (headers hp' !! start) as [h'|];
    simpl; try contradiction; [|reflexivity].
  destruct Hh as (_ & _ & -> & _). reflexivity.
Qed.

Lemma only_marks_accounted_size a :
  accounted_size hp' a = accounted_size hp a.
Proof.
  unfold accounted_size. destruct Hmarks as [-> _].
  destruct (find (in_page a) (pages hp)); [|reflexivity].
  apply only_marks_object_size.
Qed.

Lemma only_marks_object_contains page a start :
  object_contains hp' page a start = object_contains hp page a start.
Proof. unfold object_contains. now rewrite only_marks_object_size. Qed.

Lemma only_marks_find page a starts :
  find (object_contains hp' page a) starts =
  find (object_contains hp page a) starts.
Proof.
  induction starts as [|s rest IH]; simpl; [reflexivity|].
  now rewrite only_marks_object_contains, IH.
Qed.

Lemma only_marks_disjoint page starts :
  disjoint_objects hp' page starts = disjoint_objects hp page starts.
Proof.
  induction starts as [|s rest IH]; simpl; [reflexivity|]. rewrite IH. f_equal.
  clear IH. induction rest as [|s' rest IH]; simpl; [reflexivity|].
  rewrite IH. f_equal. unfold apart. now rewrite !only_marks_object_size.
Qed.

End Layout.

(** X5. Whatever calls were made, an address resolves as before: the
    region and heap that own it, the header found for an interior address,
    whether the objects of a region overlap, and the size that
    [AccountMarkedBytes] would add for an object are all unchanged. *)
Theorem resolution_is_stable
  (DEBUG : bool) (ext : Externals) (calls : list Call) (w : World) :
  let w' := perform_all DEBUG ext calls w in
  (forall a,
     returned (BasePage_FromPayload a w') = returned (BasePage_FromPayload a w)) /\
  (forall a, owner (memory w') a = owner (memory w) a) /\
  (forall page a,
     returned (ObjectHeaderFromInnerAddress page a w') =
     returned (ObjectHeaderFromInnerAddress page a w)) /\
  (forall page,
     disjoint_objects (memory w') page (object_starts page) =
     disjoint_objects (memory w) page (object_starts page)) /\
  (forall a, accounted_size (memory w') a = accounted_size (memory w) a).
Proof.
  intros w'. pose proof (perform_all_only_marks DEBUG ext calls w) as Hm.
  fold w' in Hm. pose proof Hm as [Hp _].
  split; [|split; [|split; [|split]]].
  - intros a. unfold BasePage_FromPayload. rewrite Hp.
    now destruct (find (in_page a) (pages (memory w))).
  - intros a. unfold owner. now rewrite Hp.
  - intros page a. unfold ObjectHeaderFromInnerAddress.
    rewrite (only_marks_find _ _ Hm).
    now destruct (find (object_contains (memory w) page a) (object_starts page)).
  - intros page. apply (only_marks_disjoint _ _ Hm).
  - intros a. apply (only_marks_accounted_size _ _ Hm).
Qed.

(** ** Accounting several objects *)

Section Accounting.

Variable DEBUG : bool.
Variable ext : Externals.

Lemma total_permutation (l l' : list size_t) :
  Permutation l l' -> total l = total l'.
Proof.
  induction 1; simpl; unfold total in *; simpl; try lia.
Qed.

Lemma account_all (objects : list (Address * size_t)) :
  forall w,
    Forall (fun o => accounted_size (memory w) (fst o) = Some (snd o)) objects ->
    let w' :=
      perform_all DEBUG ext
        (map (fun o => Call_AccountMarkedBytes (fst o)) objects) w in
    w' = accounted (marked_bytes w') w /\
    (marked_bytes w' mod 2 ^ size_t_bits ext =
     (marked_bytes w + total (map snd objects)) mod 2 ^ size_t_bits ext)%N /\
    ((marked_bytes w < 2 ^ size_t_bits ext)%N ->
     (marked_bytes w' < 2 ^ size_t_bits ext)%N).
Proof.
  assert (Hpos : (2 ^ size_t_bits ext <> 0)%N) by (apply N.pow_nonzero; lia).
  induction objects as [|[a n] rest IH]; intros w Hall; simpl.
  - repeat split; auto.
    + now destruct w as [hp [] cs b].
    + unfold total. simpl. now rewrite N.add_0_r.
  - inversion Hall as [|o l Ho Hrest]; subst. simpl in Ho.
    rewrite AccountMarkedBytes_run, Ho.
    set (w1 := with_self _ w).
    destruct (IH w1 Hrest) as (Hw' & Hsum & Hfit).
    repeat split.
    + rewrite Hw' at 1. reflexivity.
    + rewrite Hsum. unfold w1, marked_bytes, size_t_add, total. simpl.
      rewrite N.Div0.add_mod_idemp_l. f_equal. lia.
    + intros _. apply Hfit. unfold w1, marked_bytes, size_t_add. simpl.
      now apply N.mod_lt.
Qed.

End Accounting.

(** X6. Accounting a list of objects leaves the counter at the sum of
    their sizes, taken modulo the range of [size_t], whatever the order in
    which they are accounted; the heap and the worklists are untouched. *)
Theorem AccountMarkedBytes_sums_in_any_order
  (DEBUG : bool) (ext : Externals) (objects objects' : list (Address * size_t))
  (w : World) :
  Forall (fun o => accounted_size (memory w) (fst o) = Some (snd o)) objects ->
  (marked_bytes w < 2 ^ size_t_bits ext)%N ->
  Permutation objects objects' ->
  let account := fun l =>
    perform_all DEBUG ext (map (fun o => Call_AccountMarkedBytes (fst o)) l) w in
  marked_bytes (account objects) =
    ((marked_bytes w + total (map snd objects)) mod 2 ^ size_t_bits ext)%N /\
  marked_bytes (account objects') = marked_bytes (account objects) /\
  account objects = accounted (marked_bytes (account objects)) w.
Proof.
  intros Hall Hfit Hperm account.
  assert (Hall' : Forall (fun o => accounted_size (memory w) (fst o)
                                   = Some (snd o)) objects').
  { rewrite Forall_forall in *. intros o Ho. apply Hall.
    now rewrite Hperm. }
  destruct (account_all DEBUG ext objects w Hall) as (Hw & Hsum & Hlt).
  destruct (account_all DEBUG ext objects' w Hall') as (_ & Hsum' & Hlt').
  fold (account objects) in Hw, Hsum, Hlt.
  fold (account objects') in Hsum', Hlt'.
  rewrite N.mod_small in Hsum by auto.
  rewrite N.mod_small in Hsum' by auto.
  repeat split; [exact Hsum | | exact Hw].
  rewrite Hsum, Hsum'. f_equal. f_equal.
  apply total_permutation. apply Permutation_sym. now apply Permutation_map.
Qed.

(** The first and the large object of the scenario, in both orders:
    64 + 2147483648. *)
Lemma AccountMarkedBytes_sums_in_any_order_witness :
  marked_bytes
    (perform_all true Scenario.ext
       [Call_AccountMarkedBytes 1048576; Call_AccountMarkedBytes 4096]
       Scenario.world)
  = marked_bytes
      (perform_all true Scenario.ext
         [Call_AccountMarkedBytes 4096; Call_AccountMarkedBytes 1048576]
         Scenario.world).
Proof.
  assert (Hall : Forall (fun o => accounted_size (memory Scenario.world) (fst o)
                                  = Some (snd o))
                        [(4096, 64%N); (1048576, 2147483648%N)])
    by (repeat constructor).
  assert (Hfit : (marked_bytes Scenario.world < 2 ^ size_t_bits Scenario.ext)%N)
    by reflexivity.
  assert (Hperm : Permutation [(4096, 64%N); (1048576, 2147483648%N)]
                              [(1048576, 2147483648%N); (4096, 64%N)])
    by apply perm_swap.
  exact (proj1 (proj2 (AccountMarkedBytes_sums_in_any_order true Scenario.ext
                         _ _ Scenario.world Hall Hfit Hperm))).
Defined.

(** ** The header-only form and the address-only entry point *)

Section OwnDescriptor.

Variable DEBUG : bool.
Variable ext : Externals.

(** The trace unit an object has by its own type index. *)
Let own_unit (header : Address) (h : HeapObjectHeader) : TraceDescriptor :=
  mkTraceDescriptor (Payload ext header)
                    (GCInfoFromIndex_trace ext (gc_info_index h)).

Lemma MarkAndPush_own_constructed w header h :
  headers (memory w) !! header = Some h ->
  in_construction_bit h = false ->
  (DEBUG = true ->
   GCInfoFromIndex_trace ext (gc_info_index h) <> nullptr /\
   free_bit h = false /\
   owner (memory w) header = Some (heap_ (self w))) ->
  MarkAndPush_own DEBUG ext header w =
    Done tt (if mark_bit h then w
             else pushed_trace_unit (own_unit header h)
                    (marked_world header h w)).
Proof.
  intros Hh Hc Hpre. unfold MarkAndPush_own.
  unfold bind at 1. unfold GetGCInfoIndex, load, bind at 1, ret at 1.
  rewrite Hh.
  now apply (MarkAndPush_header_constructed DEBUG ext w header _ h).
Qed.

Lemma DynamicallyMarkAddress_resolved w address page start h :
  returned (BasePage_FromPayload address w) = Some page ->
  returned (ObjectHeaderFromInnerAddress page address w) = Some start ->
  headers (memory w) !! start = Some h ->
  (DEBUG = true ->
   in_construction_bit h = false /\ free_bit h = false /\
   owner (memory w) start = Some (heap_ (self w))) ->
  DynamicallyMarkAddress DEBUG ext address w =
    Done tt (if mark_bit h then w
             else pushed_trace_unit (own_unit start h)
                    (marked_world start h w)).
Proof.
  intros Hpage Hstart Hh Hpre.
  assert (Epage : BasePage_FromPayload address w = Done page w).
  { unfold BasePage_FromPayload in *.
    destruct (find (in_page address) (pages (memory w))); simpl in *;
      congruence. }
  assert (Estart : ObjectHeaderFromInnerAddress page address w = Done start w).
  { unfold ObjectHeaderFromInnerAddress in *.
    destruct (find (object_contains (memory w) page address)
                   (object_starts page)); simpl in *; congruence. }
  assert (Echeck : DCHECK DEBUG
                     (bind (IsInConstruction start) (fun c => ret (negb c))) w
                   = Done tt w).
  { unfold_monad. destruct DEBUG; [|reflexivity].
    destruct Hpre as (Hc & _); [reflexivity|]. now rewrite Hh, Hc. }
  assert (Emark : MarkNoPush DEBUG start w =
                  Done (negb (mark_bit h))
                       (if mark_bit h then w else marked_world start h w)).
  { apply MarkNoPush_checked; [assumption|]. intros D.
    destruct (Hpre D) as (_ & ? & ?). auto. }
  unfold DynamicallyMarkAddress.
  unfold bind at 1. rewrite Epage.
  unfold bind at 1. rewrite Estart.
  unfold bind at 1. rewrite Echeck.
  unfold bind at 1. rewrite Emark.
  destruct (mark_bit h); simpl; [reflexivity|].
  unfold_monad. simpl. now rewrite lookup_insert_eq.
Qed.

End OwnDescriptor.

(** X7. On an object that is not in construction, marking through an
    interior address and marking through the header alone are the same
    operation: [DynamicallyMarkAddress(address)] has the result of
    [MarkAndPush(header)] on the header the address resolves to. *)
Theorem DynamicallyMarkAddress_is_MarkAndPush_of_header
  (DEBUG : bool) (ext : Externals) (w : World) (address : Address)
  (page : BasePage) (start : Address) (h : HeapObjectHeader) :
  returned (BasePage_FromPayload address w) = Some page ->
  returned (ObjectHeaderFromInnerAddress page address w) = Some start ->
  headers (memory w) !! start = Some h ->
  in_construction_bit h = false ->
  (DEBUG = true ->
   GCInfoFromIndex_trace ext (gc_info_index h) <> nullptr /\
   free_bit h = false /\
   owner (memory w) start = Some (heap_ (self w))) ->
  DynamicallyMarkAddress DEBUG ext address w = MarkAndPush_own DEBUG ext start w.
Proof.
  intros Hpage Hstart Hh Hc Hpre.
  rewrite (DynamicallyMarkAddress_resolved DEBUG ext w address page start h),
          (MarkAndPush_own_constructed DEBUG ext w start h); auto.
  intros D. destruct (Hpre D) as (_ & ? & ?). auto.
Qed.

Lemma DynamicallyMarkAddress_is_MarkAndPush_of_header_witness :
  DynamicallyMarkAddress true Scenario.ext 4130 Scenario.world =
  MarkAndPush_own true Scenario.ext 4096 Scenario.world.
Proof.
  assert (Hh : headers (memory Scenario.world) !! 4096 = Some Scenario.object_a)
    by reflexivity.
  assert (Hpre : true = true ->
                 GCInfoFromIndex_trace Scenario.ext
                   (gc_info_index Scenario.object_a) <> nullptr /\
                 free_bit Scenario.object_a = false /\
                 owner (memory Scenario.world) 4096 =
                   Some (heap_ (self Scenario.world))).
  { intros _. split; [discriminate | split; reflexivity]. }
  exact (DynamicallyMarkAddress_is_MarkAndPush_of_header true Scenario.ext
           Scenario.world 4130 Scenario.normal_page 4096 Scenario.object_a
           eq_refl eq_refl Hh eq_refl Hpre).
Defined.

(** X8. In a build without DEBUG the two entry points part on an unmarked
    object in construction.  Reached through an interior address the
    object ends marked and its trace unit is pushed, nothing being
    deferred; offered through its header its payload is deferred, its mark
    bit stays clear and no trace unit is pushed. *)
Theorem in_construction_object_marked_through_address
  (ext : Externals) (w : World) (address : Address)
  (page : BasePage) (start : Address) (h : HeapObjectHeader) :
  returned (BasePage_FromPayload address w) = Some page ->
  returned (ObjectHeaderFromInnerAddress page address w) = Some start ->
  headers (memory w) !! start = Some h ->
  in_construction_bit h = true ->
  mark_bit h = false ->
  let desc :=
    mkTraceDescriptor (Payload ext start)
                      (GCInfoFromIndex_trace ext (gc_info_index h)) in
  let w1 := final (DynamicallyMarkAddress false ext address w) in
  let w2 := final (MarkAndPush_own false ext start w) in
  (DynamicallyMarkAddress false ext address w = Done tt w1 /\
   mark_bit <$> headers (memory w1) !! start = Some true /\
   (forall a, a <> start ->
      headers (memory w1) !! a = headers (memory w) !! a) /\
   marking_worklist_ (self w1) = marking_worklist_ (self w) ++ [desc] /\
   not_fully_constructed_worklist_ (self w1) =
     not_fully_constructed_worklist_ (self w)) /\
  (MarkAndPush_own false ext start w = Done tt w2 /\
   mark_bit <$> headers (memory w2) !! start = Some false /\
   memory w2 = memory w /\
   marking_worklist_ (self w2) = marking_worklist_ (self w) /\
   not_fully_constructed_worklist_ (self w2) =
     not_fully_constructed_worklist_ (self w) ++ [Payload ext start]).
Proof.
  intros Hpage Hstart Hh Hc Hm desc w1 w2.
  assert (Hrun1 : DynamicallyMarkAddress false ext address w =
                  Done tt (pushed_trace_unit desc (marked_world start h w))).
  { rewrite (DynamicallyMarkAddress_resolved false ext w address page start h)
      by (auto; discriminate).
    now rewrite Hm. }
  assert (Hrun2 : MarkAndPush_own false ext start w =
                  Done tt (pushed_not_fully_constructed (Payload ext start) w)).
  { unfold MarkAndPush_own, MarkAndPush_header. unfold_monad.
    rewrite Hh. simpl. now rewrite Hh, Hc. }
  split.
  - subst w1. rewrite Hrun1. simpl final.
    destruct (marked_and_pushed start h desc w) as (H1 & H2 & H3 & H4 & _).
    repeat split; assumption.
  - subst w2. rewrite Hrun2. simpl final. repeat split.
    simpl. rewrite Hh. simpl. now rewrite Hm.
Qed.

Lemma in_construction_object_marked_through_address_witness :
  let w1 := final (DynamicallyMarkAddress false Scenario.ext 4170 Scenario.world) in
  let w2 := final (MarkAndPush_own false Scenario.ext 4160 Scenario.world) in
  (mark_bit <$> headers (memory w1) !! 4160 = Some true /\
   marking_worklist_ (self w1) = [mkTraceDescriptor 4168 1004] /\
   not_fully_constructed_worklist_ (self w1) = []) /\
  (mark_bit <$> headers (memory w2) !! 4160 = Some false /\
   marking_worklist_ (self w2) = [] /\
   not_fully_constructed_worklist_ (self w2) = [4168]).
Proof.
  assert (Hh : headers (memory Scenario.world) !! 4160 = Some Scenario.object_b)
    by reflexivity.
  destruct (in_construction_object_marked_through_address Scenario.ext
              Scenario.world 4170 Scenario.normal_page 4160 Scenario.object_b
              eq_refl eq_refl Hh eq_refl eq_refl)
    as ((_ & A1 & _ & A2 & A3) & (_ & B1 & _ & B2 & B3)).
  intros w1 w2. repeat split; assumption.
Defined.

(** ** How the operations compose *)

Section Composition.

Variable DEBUG : bool.
Variable ext : Externals.

Lemma MarkAndPush_header_deferred w header desc h :
  headers (memory w) !! header = Some h ->
  in_construction_bit h = true ->
  (DEBUG = true -> callback desc <> nullptr) ->
  MarkAndPush_header DEBUG ext header desc w =
    Done tt (pushed_not_fully_constructed (Payload ext header) w).
Proof.
  intros Hh Hc Hcb. unfold MarkAndPush_header.
  unfold bind at 1. rewrite DCHECK_NOT_NULL_passes by assumption.
  unfold_monad. now rewrite Hh, Hc.
Qed.


Lemma defer_repeatedly header desc h n :
  forall w,
    headers (memory w) !! header = Some h ->
    in_construction_bit h = true ->
    (DEBUG = true -> callback desc <> nullptr) ->
    perform_all DEBUG ext (repeat (Call_MarkAndPush_header header desc) n) w =
      with_self
        (with_not_fully_constructed_worklist
           (not_fully_constructed_worklist_ (self w)
              ++ repeat (Payload ext header) n) (self w)) w.
Proof.
  induction n as [|n IH]; intros w Hh Hc Hcb; simpl.
  - rewrite app_nil_r. now destruct w as [hp [] cs b].
  - rewrite (MarkAndPush_header_deferred w header desc h) by assumption.
    rewrite IH by assumption. simpl. unfold Push.
    now rewrite <- app_assoc.
Qed.

End Composition.

(** X9. Deferral is not idempotent: an object in construction that is
    offered [n] times is pushed [n] times on the not-fully-constructed
    worklist, while the heap, the other worklists and the counter stay as
    they were. *)
Theorem deferral_is_repeated
  (DEBUG : bool) (ext : Externals) (w : World) (header : Address)
  (desc : TraceDescriptor) (h : HeapObjectHeader) (n : nat) :
  headers (memory w) !! header = Some h ->
  in_construction_bit h = true ->
  (DEBUG = true -> callback desc <> nullptr) ->
  let w' :=
    perform_all DEBUG ext (repeat (Call_MarkAndPush_header header desc) n) w in
  not_fully_constructed_worklist_ (self w') =
    not_fully_constructed_worklist_ (self w) ++ repeat (Payload ext header) n /\
  marking_worklist_ (self w') = marking_worklist_ (self w) /\
  weak_callback_worklist_ (self w') = weak_callback_worklist_ (self w) /\
  marked_bytes w' = marked_bytes w /\
  memory w' = memory w.
Proof.
  intros Hh Hc Hcb w'. subst w'.
  rewrite (defer_repeatedly DEBUG ext header desc h n w) by assumption.
  repeat split.
Qed.

Lemma deferral_is_repeated_witness :
  not_fully_constructed_worklist_
    (self (perform_all true Scenario.ext
             (repeat (Call_MarkAndPush_header 4160 Scenario.unit_b) 3)
             Scenario.world))
  = [4168; 4168; 4168].
Proof.
  assert (Hh : headers (memory Scenario.world) !! 4160 = Some Scenario.object_b)
    by reflexivity.
  assert (Hcb : true = true -> callback Scenario.unit_b <> nullptr)
    by (intros _; discriminate).
  exact (proj1 (deferral_is_repeated true Scenario.ext Scenario.world 4160
                  Scenario.unit_b Scenario.object_b 3 Hh eq_refl Hcb)).
Defined.



(** X11. The trace unit that [MarkAndPush(header)] pushes names its own
    object: its payload leads back to the header, so offering the unit
    again through the address-based [MarkAndPush] finds the object marked
    and changes nothing. *)
Theorem pushed_unit_leads_back_to_header
  (DEBUG : bool) (ext : Externals) (w : World) (header : Address)
  (h : HeapObjectHeader) (object : Address) :
  headers (memory w) !! header = Some h ->
  in_construction_bit h = false ->
  mark_bit h = false ->
  Payload ext header <> kNotFullyConstructedObject ext ->
  (DEBUG = true ->
   GCInfoFromIndex_trace ext (gc_info_index h) <> nullptr /\
   free_bit h = false /\
   owner (memory w) header = Some (heap_ (self w)) /\
   object <> nullptr) ->
  let desc :=
    mkTraceDescriptor (Payload ext header)
                      (GCInfoFromIndex_trace ext (gc_info_index h)) in
  let w1 := pushed_trace_unit desc (marked_world header h w) in
  MarkAndPush_own DEBUG ext header w = Done tt w1 /\
  FromPayload ext (base_object_payload desc) = header /\
  MarkAndPush DEBUG ext object desc w1 = Done tt w1.
Proof.
  intros Hh Hc Hm Hne Hpre desc w1.
  assert (Hback : FromPayload ext (Payload ext header) = header)
    by (unfold FromPayload, Payload; lia).
  split; [|split; [exact Hback|]].
  - rewrite (MarkAndPush_own_constructed DEBUG ext w header h); auto.
    + now rewrite Hm.
    + intros D. destruct (Hpre D) as (? & ? & ? & _). auto.
  - unfold MarkAndPush. unfold bind at 1.
    rewrite DCHECK_NOT_NULL_passes by (intros D; now apply Hpre).
    apply Z.eqb_neq in Hne. simpl. rewrite Hne, Hback.
    rewrite (MarkAndPush_header_constructed DEBUG ext w1 header desc
               (set_mark_bit h)); simpl; auto.
    + apply lookup_insert_eq.
    + intros D. destruct (Hpre D) as (? & ? & ? & _). auto.
Qed.

Lemma pushed_unit_leads_back_to_header_witness :
  let w1 :=
    pushed_trace_unit Scenario.unit_a
      (marked_world 4096 Scenario.object_a Scenario.world) in
  MarkAndPush_own true Scenario.ext 4096 Scenario.world = Done tt w1 /\
  MarkAndPush true Scenario.ext 4104 Scenario.unit_a w1 = Done tt w1.
Proof.
  assert (Hh : headers (memory Scenario.world) !! 4096 = Some Scenario.object_a)
    by reflexivity.
  assert (Hne : Payload Scenario.ext 4096 <>
                kNotFullyConstructedObject Scenario.ext) by discriminate.
  assert (Hpre : true = true ->
                 GCInfoFromIndex_trace Scenario.ext
                   (gc_info_index Scenario.object_a) <> nullptr /\
                 free_bit Scenario.object_a = false /\
                 owner (memory Scenario.world) 4096 =
                   Some (heap_ (self Scenario.world)) /\
                 4104 <> nullptr).
  { intros _. repeat split; discriminate. }
  destruct (pushed_unit_leads_back_to_header true Scenario.ext Scenario.world
              4096 Scenario.object_a 4104 Hh eq_refl eq_refl Hne Hpre)
    as (Hown & _ & Hagain).
  split; [exact Hown | exact Hagain].
Defined.

(** X12. Marking across heaps: when the region of a header belongs to
    another heap than the marking state, a DEBUG build dies on the
    [DCHECK_EQ] of [MarkNoPush] with nothing written, also when reached
    through [MarkAndPush]; a build without DEBUG does not look at the heap:
    the object of the other heap ends marked, and its trace unit is pushed
    if it was unmarked. *)
Theorem MarkNoPush_across_heaps
  (ext : Externals) (w : World) (header : Address) (desc : TraceDescriptor)
  (h : HeapObjectHeader) (page : BasePage) :
  headers (memory w) !! header = Some h ->
  find (in_page header) (pages (memory w)) = Some page ->
  page_heap page <> heap_ (self w) ->
  in_construction_bit h = false ->
  callback desc <> nullptr ->
  let w' := final (MarkAndPush_header false ext header desc w) in
  MarkNoPush true header w = Fatal DcheckFailure w /\
  MarkAndPush_header true ext header desc w = Fatal DcheckFailure w /\
  MarkAndPush_header false ext header desc w = Done tt w' /\
  mark_bit <$> headers (memory w') !! header = Some true /\
  (forall a, a <> header ->
     headers (memory w') !! a = headers (memory w) !! a) /\
  marking_worklist_ (self w') =
    marking_worklist_ (self w) ++ (if mark_bit h then [] else [desc]) /\
  not_fully_constructed_worklist_ (self w') =
    not_fully_constructed_worklist_ (self w).
Proof.
  intros Hh Hpage Hheap Hc Hcb w'.
  assert (Hdies : MarkNoPush true header w = Fatal DcheckFailure w).
  { unfold MarkNoPush. unfold_monad. rewrite Hpage.
    destruct (Z.eqb_spec (heap_ (self w)) (page_heap page)) as [E|_];
      [now destruct Hheap | reflexivity]. }
  assert (Hrun : MarkAndPush_header false ext header desc w =
                 Done tt (if mark_bit h then w
                          else pushed_trace_unit desc (marked_world header h w))).
  { apply MarkAndPush_header_constructed; auto. discriminate. }
  split; [exact Hdies|]. split; [|split].
  - unfold MarkAndPush_header. unfold bind at 1.
    rewrite DCHECK_NOT_NULL_passes by auto.
    unfold bind at 1. unfold IsInConstruction, load, bind at 1, ret at 1.
    rewrite Hh, Hc. unfold bind at 1. now rewrite Hdies.
  - subst w'. now rewrite Hrun.
  - subst w'. rewrite Hrun. simpl final. destruct (mark_bit h) eqn:Hm.
    + rewrite Hh. simpl. rewrite Hm, app_nil_r. repeat split.
    + destruct (marked_and_pushed header h desc w) as (H1 & H2 & H3 & H4 & _).
      repeat split; assumption.
Qed.

(** A task of heap 2 offered the first object of the scenario, which lies
    in a region of heap 1. *)
Lemma MarkNoPush_across_heaps_witness :
  let w' :=
    final (MarkAndPush_header false Scenario.ext 4096 Scenario.unit_a
             (fresh_task Scenario.heap 2)) in
  MarkAndPush_header true Scenario.ext 4096 Scenario.unit_a
    (fresh_task Scenario.heap 2)
  = Fatal DcheckFailure (fresh_task Scenario.heap 2) /\
  mark_bit <$> headers (memory w') !! 4096 = Some true /\
  marking_worklist_ (self w') = [Scenario.unit_a].
Proof.
  assert (Hh : headers (memory (fresh_task Scenario.heap 2)) !! 4096 =
               Some Scenario.object_a) by reflexivity.
  assert (Hpage : find (in_page 4096) (pages (memory (fresh_task Scenario.heap 2)))
                  = Some Scenario.normal_page) by reflexivity.
  assert (Hheap : page_heap Scenario.normal_page <>
                  heap_ (self (fresh_task Scenario.heap 2))) by discriminate.
  assert (Hcb : callback Scenario.unit_a <> nullptr) by discriminate.
  destruct (MarkNoPush_across_heaps Scenario.ext
              (fresh_task Scenario.heap 2) 4096 Scenario.unit_a
              Scenario.object_a Scenario.normal_page
              Hh Hpage Hheap eq_refl Hcb)
    as (_ & Hdebug & _ & Hmarked & _ & Hpushed & _).
  intros w'. split; [exact Hdebug|]. split; [exact Hmarked | exact Hpushed].
Defined.

(** ** The flags of the pending-error handler *)

Section HandlerFlags.

Import Parsing.

Lemma call_all_snoc calls s e :
  call_all (calls ++ [s]) e = call s (call_all calls e).
Proof.
  revert e. induction calls as [|c rest IH]; intros e; simpl;
    [reflexivity | apply IH].
Qed.

(** What every sequence of the inline setters keeps, from a new handler. *)
Lemma call_all_flags (MessageTemplate_kNone : N) (calls : list Setter) :
  let e0 := PendingCompilationErrorHandler_new MessageTemplate_kNone in
  let e := call_all calls e0 in
  (unidentifiable_error_ e = true -> has_pending_error_ e = true) /\
  (stack_overflow_ e = true <-> In Call_set_stack_overflow calls) /\
  warning_messages_ e = [] /\
  error_details_ e = error_details_ e0.
Proof.
  intros e0 e. subst e. induction calls as [|s rest IH] using rev_ind.
  - simpl. repeat split; try discriminate. intros [].
  - rewrite call_all_snoc.
    destruct IH as (Hu & Hs & Hw & He).
    set (e := call_all rest e0) in *.
    destruct s; simpl; (split; [|split; [|split]]);
      try assumption; try reflexivity; try discriminate;
      rewrite in_app_iff; simpl.
    + split; auto.
    + rewrite Hs. split; [auto | intros [?|[[=]|[]]]; assumption].
    + rewrite Hs. split; [auto | intros [?|[[=]|[]]]; assumption].
Qed.

End HandlerFlags.

(** X13. Over every sequence of the inline setters on a new handler: an
    error unidentifiable by the preparser is always a pending error; the
    stack-overflow flag is set exactly when [set_stack_overflow] was
    called, and no setter clears it; no setter touches the warnings or the
    error details. *)
Theorem handler_flags_invariant
  (MessageTemplate_kNone : N) (calls : list Parsing.Setter) :
  let e0 := Parsing.PendingCompilationErrorHandler_new MessageTemplate_kNone in
  let e := Parsing.call_all calls e0 in
  (Parsing.has_error_unidentifiable_by_preparser e = true ->
   Parsing.has_pending_error e = true) /\
  (Parsing.stack_overflow e = true <-> In Parsing.Call_set_stack_overflow calls) /\
  Parsing.has_pending_warnings e = false /\
  Parsing.error_details_ e = Parsing.error_details_ e0.
Proof.
  intros e0 e.
  destruct (call_all_flags MessageTemplate_kNone calls) as (Hu & Hs & Hw & He).
  fold e0 in Hu, Hs, Hw, He. fold e in Hu, Hs, Hw, He.
  repeat split; try assumption; try apply Hs.
  unfold Parsing.has_pending_warnings. now rewrite Hw.
Qed.

(** X14. [has_pending_error()] tells only what the last inline setter was:
    after [clear_unidentifiable_error] it is false, after either of the
    other two it is true.  So [clear_unidentifiable_error] also forgets a
    stack overflow: the handler reports a stack overflow without a pending
    error exactly when [set_stack_overflow] was called at some point and
    the last call was [clear_unidentifiable_error]. *)
Theorem has_pending_error_follows_last_setter
  (MessageTemplate_kNone : N) (calls : list Parsing.Setter) :
  let e :=
    Parsing.call_all calls
      (Parsing.PendingCompilationErrorHandler_new MessageTemplate_kNone) in
  Parsing.has_pending_error e =
    match last calls with
    | Some s => negb (Parsing.is_clear s)
    | None => false
    end /\
  (Parsing.stack_overflow e = true /\ Parsing.has_pending_error e = false <->
   In Parsing.Call_set_stack_overflow calls /\
   last calls = Some Parsing.Call_clear_unidentifiable_error).
Proof.
  intros e.
  assert (Hlast : Parsing.has_pending_error e =
                  match last calls with
                  | Some s => negb (Parsing.is_clear s)
                  | None => false
                  end).
  { subst e. destruct calls as [|s rest] using rev_ind; [reflexivity|].
    rewrite call_all_snoc, last_snoc. now destruct s. }
  split; [exact Hlast|].
  destruct (call_all_flags MessageTemplate_kNone calls) as (_ & Hso & _).
  fold e in Hso. unfold Parsing.stack_overflow. rewrite Hlast, Hso.
  destruct (last calls) as [[]|] eqn:Hl; simpl; split; intros [H1 H2];
    try discriminate; auto.
  apply last_None in Hl. subst calls. destruct H1.
Qed.

(** ** What lands on the not-fully-constructed worklist *)



(** X16. A type whose entry in the type-info table has a null trace
    callback: in a DEBUG build [MarkAndPush(header)] dies on
    [DCHECK_NOT_NULL(desc.callback)] with the object still unmarked and
    nothing pushed, while [DynamicallyMarkAddress] has no such check: the
    object ends marked and a trace unit whose callback is null is on the
    worklist. *)
Theorem null_trace_callback_checked_by_MarkAndPush_only
  (ext : Externals) (w : World) (address : Address)
  (page : BasePage) (start : Address) (h : HeapObjectHeader) :
  returned (BasePage_FromPayload address w) = Some page ->
  returned (ObjectHeaderFromInnerAddress page address w) = Some start ->
  headers (memory w) !! start = Some h ->
  GCInfoFromIndex_trace ext (gc_info_index h) = nullptr ->
  in_construction_bit h = false ->
  free_bit h = false ->
  mark_bit h = false ->
  owner (memory w) start = Some (heap_ (self w)) ->
  let w1 := final (MarkAndPush_own true ext start w) in
  let w2 := final (DynamicallyMarkAddress true ext address w) in
  (MarkAndPush_own true ext start w = Fatal DcheckFailure w1 /\
   mark_bit <$> headers (memory w1) !! start = Some false /\
   memory w1 = memory w /\
   marking_worklist_ (self w1) = marking_worklist_ (self w)) /\
  (DynamicallyMarkAddress true ext address w = Done tt w2 /\
   mark_bit <$> headers (memory w2) !! start = Some true /\
   (forall a, a <> start ->
      headers (memory w2) !! a = headers (memory w) !! a) /\
   marking_worklist_ (self w2) =
     marking_worklist_ (self w)
       ++ [mkTraceDescriptor (Payload ext start) nullptr] /\
   callback <$> last (marking_worklist_ (self w2)) = Some nullptr).
Proof.
  intros Hpage Hstart Hh Hnull Hc Hf Hm Hown w1 w2.
  assert (Hrun1 : MarkAndPush_own true ext start w = Fatal DcheckFailure w).
  { unfold MarkAndPush_own, MarkAndPush_header. unfold_monad.
    rewrite Hh. simpl. now rewrite Hnull. }
  assert (Hrun2 : DynamicallyMarkAddress true ext address w =
                  Done tt (pushed_trace_unit
                             (mkTraceDescriptor (Payload ext start) nullptr)
                             (marked_world start h w))).
  { rewrite (DynamicallyMarkAddress_resolved true ext w address page start h)
      by auto.
    now rewrite Hm, Hnull. }
  split.
  - subst w1. rewrite Hrun1. simpl final. repeat split.
    rewrite Hh. simpl. now rewrite Hm.
  - subst w2. rewrite Hrun2. simpl final.
    destruct (marked_and_pushed start h
                (mkTraceDescriptor (Payload ext start) nullptr) w)
      as (H1 & H2 & H3 & _).
    repeat split; try assumption.
    rewrite H3, last_snoc. reflexivity.
Qed.

Lemma null_trace_callback_checked_by_MarkAndPush_only_witness :
  let ext := mkExternals 0 8 32 (fun _ => nullptr) in
  let w1 := final (MarkAndPush_own true ext 4096 Scenario.world) in
  let w2 := final (DynamicallyMarkAddress true ext 4130 Scenario.world) in
  (MarkAndPush_own true ext 4096 Scenario.world = Fatal DcheckFailure w1 /\
   mark_bit <$> headers (memory w1) !! 4096 = Some false) /\
  (mark_bit <$> headers (memory w2) !! 4096 = Some true /\
   marking_worklist_ (self w2) = [mkTraceDescriptor 4104 nullptr]).
Proof.
  assert (Hh : headers (memory Scenario.world) !! 4096 = Some Scenario.object_a)
    by reflexivity.
  destruct (null_trace_callback_checked_by_MarkAndPush_only
              (mkExternals 0 8 32 (fun _ => nullptr)) Scenario.world 4130
              Scenario.normal_page 4096 Scenario.object_a
              eq_refl eq_refl Hh eq_refl eq_refl eq_refl eq_refl eq_refl)
    as ((A1 & A2 & _) & (_ & B1 & _ & B2 & _)).
  intros ext w1 w2. repeat split; assumption.
Defined.
